(** * openeo-js-processlib: the [Utils] class of [src/utils.js]

    A shallow embedding of the static helpers of [Utils] and the proofs of
    the properties its specification states about them.

    Data model.
    - A JavaScript string is a Rocq [string]; its characters stand for the
      code units below 128, the range on which [toUpperCase], [toLowerCase]
      and the regular expressions of the source act letter by letter.
    - A JavaScript value is a [Value].  Arrays and objects carry the
      location they were allocated at, which is what [===] and [Set]
      compare; an object's properties are kept in enumeration order.
    - A number is an integer, [NaN] or an infinity.
    - A call either returns or throws: [result]. *)

From Stdlib Require Import Bool Arith ZArith Lia List Ascii String.
From Stdlib Require Import Numbers.DecimalString.
From Stdlib Require Import NArith Sorting.Sorted.
Import ListNotations.

Open Scope string_scope.
Open Scope bool_scope.

(** ** Values *)

Definition loc := nat.

Inductive number : Type :=
| NaN
| Infinity (negative : bool)
| Num (z : Z).

#[local] Unset Elimination Schemes.

Inductive Value : Type :=
| VUndefined
| VNull
| VBool (b : bool)
| VNum (n : number)
| VStr (s : string)
| VArr (l : loc) (items : list Value)
| VObj (l : loc) (props : list (string * Value)).

#[local] Set Elimination Schemes.

Inductive error : Type :=
| TypeError
| SyntaxError.

Inductive result (A : Type) : Type :=
| Ok (a : A)
| Throw (e : error).

Arguments Ok {A} a.
Arguments Throw {A} e.

Definition bind {A B : Type} (r : result A) (k : A -> result B) : result B :=
  match r with
  | Ok a => k a
  | Throw e => Throw e
  end.

Notation "x <- r ;; k" := (bind r (fun x => k))
  (at level 61, r at next level, right associativity).

(** [typeof v === 'string'] *)
Definition is_string (v : Value) : bool :=
  match v with VStr _ => true | _ => false end.

(** [Array.isArray(v)] *)
Definition isArray (v : Value) : bool :=
  match v with VArr _ _ => true | _ => false end.

(** [Utils.isObject]: [typeof obj === 'object' && obj === Object(obj) &&
    !Array.isArray(obj)]. *)
Definition isObject (obj : Value) : bool :=
  match obj with VObj _ _ => true | _ => false end.

(** ** Characters and strings *)

Definition code (c : ascii) : nat := nat_of_ascii c.

Definition in_range (lo hi : nat) (c : ascii) : bool :=
  (lo <=? code c)%nat && (code c <=? hi)%nat.

(** [[a-z]], [[A-Z]], [\d] and [[a-zA-Z\d]] *)
Definition is_lower (c : ascii) : bool := in_range 97 122 c.
Definition is_upper (c : ascii) : bool := in_range 65 90 c.
Definition is_digit (c : ascii) : bool := in_range 48 57 c.
Definition is_alnum (c : ascii) : bool := is_lower c || is_upper c || is_digit c.

(** [c.toUpperCase()] and [c.toLowerCase()] for a code unit below 128,
    where the two act on the letters [a] to [z] and [A] to [Z] and on
    nothing else. *)
Definition upper_char (c : ascii) : ascii :=
  if is_lower c then ascii_of_nat (code c - 32) else c.

Definition lower_char (c : ascii) : ascii :=
  if is_upper c then ascii_of_nat (code c + 32) else c.

Fixpoint map_string (f : ascii -> ascii) (s : string) : string :=
  match s with
  | EmptyString => EmptyString
  | String c s' => String (f c) (map_string f s')
  end.

Definition toLowerCase : string -> string := map_string lower_char.

(** [s.replace(/\/$/, "")]: without the [m] flag [$] is the end of the
    input, so at most the last character goes. *)
Fixpoint strip_trailing_slash (s : string) : string :=
  match s with
  | EmptyString => EmptyString
  | String c EmptyString => if Ascii.eqb c "/" then EmptyString else s
  | String c s' => String c (strip_trailing_slash s')
  end.

(** [s.substr(0, 1)] *)
Definition substr01 (s : string) : string :=
  match s with
  | EmptyString => EmptyString
  | String c _ => String c EmptyString
  end.

(** ** normalizeUrl *)

(** [normalizeUrl(baseUrl, path = null)].  [baseUrl.replace] exists on
    strings only; a [path] that is not a string is skipped. *)
Definition normalizeUrl (baseUrl path : Value) : result string :=
  match baseUrl with
  | VStr base =>
      let url := strip_trailing_slash base in
      match path with
      | VStr p =>
          let p := if String.eqb (substr01 p) "/" then p else "/" ++ p in
          Ok (url ++ strip_trailing_slash p)
      | _ => Ok url
      end
  | _ => Throw TypeError
  end.

(** The single-argument form, applied to its own result. *)
Definition normalizeUrl_twice (u : string) : result string :=
  r <- normalizeUrl (VStr u) VUndefined ;; normalizeUrl (VStr r) VUndefined.

(** [u] ends with two slashes. *)
Fixpoint ends_with_two_slashes (u : string) : bool :=
  match u with
  | EmptyString => false
  | String c u' =>
      match u' with
      | String d EmptyString => Ascii.eqb c "/" && Ascii.eqb d "/"
      | _ => ends_with_two_slashes u'
      end
  end.

(** ** Numeric strings: [parseFloat], [Number] and [isNumeric] *)

(** [StrWhiteSpaceChar] below 128: TAB, LF, VT, FF, CR and SP. *)
Definition is_ws (c : ascii) : bool :=
  in_range 9 13 c || Ascii.eqb c " ".

Fixpoint trim_start (s : string) : string :=
  match s with
  | String c s' => if is_ws c then trim_start s' else s
  | EmptyString => EmptyString
  end.

Fixpoint trim_end (s : string) : string :=
  match s with
  | EmptyString => EmptyString
  | String c s' =>
      match trim_end s' with
      | EmptyString => if is_ws c then EmptyString else String c EmptyString
      | t => String c t
      end
  end.

Definition trim (s : string) : string := trim_end (trim_start s).

(** [s.startsWith(p)], with the rest of [s] *)
Fixpoint strip_prefix (p s : string) : option string :=
  match p, s with
  | EmptyString, _ => Some s
  | String a p', String b s' => if Ascii.eqb a b then strip_prefix p' s' else None
  | String _ _, EmptyString => None
  end.

(** The value of a digit in base [base] (2, 8, 10 or 16). *)
Definition digit_value (base : N) (c : ascii) : option N :=
  let v :=
    if is_digit c then Some (N.of_nat (code c - 48))
    else if in_range 97 102 c then Some (N.of_nat (code c - 87))
    else if in_range 65 70 c then Some (N.of_nat (code c - 55))
    else None in
  match v with
  | Some d => if (d <? base)%N then Some d else None
  | None => None
  end.

(** The longest run of digits at the head of [s]: the number read so far,
    how many digits were read, and what follows. *)
Fixpoint take_digits (base : N) (acc : N) (count : nat) (s : string)
  : N * nat * string :=
  match s with
  | String c s' =>
      match digit_value base c with
      | Some d => take_digits base (acc * base + d)%N (S count) s'
      | None => (acc, count, s)
      end
  | EmptyString => (acc, count, s)
  end.

(** The mathematical value of a [StrNumericLiteral]:
    [(-1)^negative * mantissa * 10^exponent], or an infinity. *)
Inductive literal : Type :=
| LInfinity (negative : bool)
| LDecimal (negative : bool) (mantissa : N) (exponent : Z).

(** An optional [+] or [-]. *)
Definition take_sign (s : string) : bool * string :=
  match s with
  | String "-" s' => (true, s')
  | String "+" s' => (false, s')
  | _ => (false, s)
  end.

(** [ExponentPart] opt, which has to end the literal. *)
Definition parse_exponent (s : string) : option Z :=
  match s with
  | EmptyString => Some 0%Z
  | String c s' =>
      if Ascii.eqb c "e" || Ascii.eqb c "E" then
        let '(neg, s'') := take_sign s' in
        match take_digits 10 0 0 s'' with
        | (_, O, _) => None
        | (e, _, EmptyString) => Some (if neg then (- Z.of_N e)%Z else Z.of_N e)
        | _ => None
        end
      else None
  end.

(** [StrUnsignedDecimalLiteral] other than [Infinity]:
    [D. D? E?], [. D E?] or [D E?]. *)
Definition parse_unsigned_decimal (s : string) : option (N * Z) :=
  let '(int, n1, s1) := take_digits 10 0 0 s in
  match s1 with
  | String "." s2 =>
      let '(m, n2, s3) := take_digits 10 int 0 s2 in
      match n1 + n2 with
      | O => None
      | _ => match parse_exponent s3 with
             | Some e => Some (m, (e - Z.of_nat n2)%Z)
             | None => None
             end
      end
  | _ =>
      match n1 with
      | O => None
      | _ => match parse_exponent s1 with
             | Some e => Some (int, e)
             | None => None
             end
      end
  end.

(** [NonDecimalIntegerLiteral]: [0x], [0o] or [0b] and at least one digit. *)
Definition parse_radix (base : N) (s : string) : option literal :=
  match take_digits base 0 0 s with
  | (_, O, _) => None
  | (n, _, EmptyString) => Some (LDecimal false n 0)
  | _ => None
  end.

(** [StrNumericLiteral], which has to be the whole of [s]. *)
Definition parse_numeric_literal (s : string) : option literal :=
  match s with
  | String "0" (String "x" r) | String "0" (String "X" r) => parse_radix 16 r
  | String "0" (String "o" r) | String "0" (String "O" r) => parse_radix 8 r
  | String "0" (String "b" r) | String "0" (String "B" r) => parse_radix 2 r
  | _ =>
      let '(neg, r) := take_sign s in
      if String.eqb r "Infinity" then Some (LInfinity neg)
      else match parse_unsigned_decimal r with
           | Some (m, e) => Some (LDecimal neg m e)
           | None => None
           end
  end.

(** [Number(s)] for a string: [None] is [NaN]; the empty string is [0]. *)
Definition string_to_number (s : string) : option literal :=
  match trim s with
  | EmptyString => Some (LDecimal false 0 0)
  | t => parse_numeric_literal t
  end.

(** [m * 10^e >= p / q], for [q > 0]. *)
Definition scaled_ge (m : N) (e : Z) (p q : Z) : bool :=
  if (0 <=? e)%Z then (p <=? Z.of_N m * 10 ^ e * q)%Z
  else (p * 10 ^ (- e) <=? Z.of_N m * q)%Z.

(** A literal, rounded to the nearest double, is finite when its magnitude
    is below [2^1024 - 2^970], half-way between the largest double and
    [2^1024]. *)
Definition literal_finite (l : literal) : bool :=
  match l with
  | LInfinity _ => false
  | LDecimal _ m e => negb (scaled_ge m e (2 ^ 1024 - 2 ^ 970) 1)
  end.

(** [!isNaN(parseFloat(s))]: after leading white space some prefix of [s]
    is a [StrDecimalLiteral]. *)
Definition parseFloat_is_number (s : string) : bool :=
  let '(_, r) := take_sign (trim_start s) in
  match strip_prefix "Infinity" r with
  | Some _ => true
  | None =>
      match r with
      | String c r' =>
          is_digit c ||
          (Ascii.eqb c "." && match r' with String d _ => is_digit d | _ => false end)
      | EmptyString => false
      end
  end.

(** [Utils.isNumeric] on a string:
    [!isNaN(parseFloat(n)) && isFinite(n)]. *)
Definition isNumeric (n : string) : bool :=
  parseFloat_is_number n &&
  match string_to_number n with
  | Some l => literal_finite l
  | None => false
  end.

(** ** [String(v)] and [Array.prototype.join] *)

(** [String(n)]; the decimal numeral is what JavaScript prints for the
    integers below [2^53] in magnitude, the ones [representable] keeps. *)
Definition number_to_string (n : number) : string :=
  match n with
  | NaN => "NaN"
  | Infinity false => "Infinity"
  | Infinity true => "-Infinity"
  | Num z => NilZero.string_of_int (Z.to_int z)
  end.

(** [String(v)], for a value on which it returns (see [printable]): it
    throws on an object with a property [toString] of its own.  An array
    prints as its elements joined by [","], with [null] and [undefined]
    elements printed as nothing. *)
Fixpoint to_string (v : Value) : string :=
  match v with
  | VUndefined => "undefined"
  | VNull => "null"
  | VBool true => "true"
  | VBool false => "false"
  | VNum n => number_to_string n
  | VStr s => s
  | VArr _ items =>
      String.concat ","
        (map (fun x => match x with
                       | VUndefined | VNull => ""
                       | _ => to_string x
                       end) items)
  | VObj _ _ => "[object Object]"
  end.

(** What [join] prints for one element. *)
Definition element_string (v : Value) : string :=
  match v with
  | VUndefined | VNull => ""
  | _ => to_string v
  end.

(** [items.join(sep)] *)
Definition join (sep : string) (items : list Value) : string :=
  String.concat sep (map element_string items).

(** ** Properties of objects *)

(** [obj[key]] on the properties of an object: [None] is [undefined]. *)
Fixpoint lookup (key : string) (props : list (string * Value)) : option Value :=
  match props with
  | [] => None
  | (k, v) :: rest => if String.eqb k key then Some v else lookup key rest
  end.

Definition get (key : string) (props : list (string * Value)) : Value :=
  match lookup key props with
  | Some v => v
  | None => VUndefined
  end.

(** [obj[key] = v]: an existing property keeps its place, a new one goes
    last. *)
Fixpoint set_prop (key : string) (v : Value) (props : list (string * Value))
  : list (string * Value) :=
  match props with
  | [] => [(key, v)]
  | (k, w) :: rest =>
      if String.eqb k key then (k, v) :: rest
      else (k, w) :: set_prop key v rest
  end.

Definition nat_to_string (n : nat) : string :=
  NilZero.string_of_uint (Nat.to_uint n).

(** The index properties ["0"], ["1"], ... of an array or a string. *)
Fixpoint indexed (i : nat) (items : list Value) : list (string * Value) :=
  match items with
  | [] => []
  | x :: rest => (nat_to_string i, x) :: indexed (S i) rest
  end.

(** The characters of a string as one-character strings, which is what
    iterating a string and indexing it give. *)
Fixpoint chars (s : string) : list Value :=
  match s with
  | EmptyString => []
  | String c s' => VStr (String c EmptyString) :: chars s'
  end.

(** [Object.assign({}, v)]: the own enumerable properties of [v], for a
    [v] without a property [__proto__] of its own, which the assignment
    would turn into the prototype of the copy (see [assigned]). *)
Definition own_props (v : Value) : list (string * Value) :=
  match v with
  | VObj _ props => props
  | VArr _ items => indexed 0 items
  | VStr s => indexed 0 (chars s)
  | _ => []
  end.

(** ** prettifyString *)

(** [str.includes(c)] for a one-character [c] *)
Fixpoint includes_char (c : ascii) (s : string) : bool :=
  match s with
  | EmptyString => false
  | String d s' => Ascii.eqb d c || includes_char c s'
  end.

(** [str.replace(/([a-zA-Z\d])SEP([a-zA-Z\d])/g, replacer)]: matches are
    looked for from left to right and the search resumes behind a match. *)
Fixpoint replace_separated (replacer : ascii -> ascii -> string) (sep : ascii)
  (s : string) : string :=
  match s with
  | String a ((String x (String b rest)) as tail) =>
      if is_alnum a && Ascii.eqb x sep && is_alnum b
      then replacer a b ++ replace_separated replacer sep rest
      else String a (replace_separated replacer sep tail)
  | _ => s
  end.

(** [str.replace(/([a-z])([A-Z])/g, replacer)] *)
Fixpoint replace_camel (replacer : ascii -> ascii -> string) (s : string)
  : string :=
  match s with
  | String a ((String b rest) as tail) =>
      if is_lower a && is_upper b
      then replacer a b ++ replace_camel replacer rest
      else String a (replace_camel replacer tail)
  | _ => s
  end.

(** [(_,a,b) => a + ' ' + b.toUpperCase()] *)
Definition replacer (a b : ascii) : string :=
  String a (String " " (String (upper_char b) EmptyString)).

(** The replacement pattern ['$1 $2'] of the single-string variant. *)
Definition replacer_legacy (a b : ascii) : string :=
  String a (String " " (String b EmptyString)).

(** [str.charAt(0).toUpperCase() + str.substr(1)] *)
Definition capitalize (s : string) : string :=
  match s with
  | EmptyString => EmptyString
  | String c s' => String (upper_char c) s'
  end.

(** The three converters, tried in the order of the source. *)
Definition convert_case (replacer : ascii -> ascii -> string) (str : string)
  : string :=
  if includes_char "_" str then replace_separated replacer "_" str
  else if includes_char "-" str then replace_separated replacer "-" str
  else replace_camel replacer str.

(** The callback of [strings.map] on a string. *)
Definition prettify_token (str : string) : string :=
  if (3 <=? String.length str)%nat
  then capitalize (convert_case replacer str)
  else str.

(** [ToNumber(s) >= 3]: the literal rounds to [3] or more from
    [3 - 2^-52] on. *)
Definition string_ge_3 (s : string) : bool :=
  match string_to_number s with
  | Some (LInfinity negative) => negb negative
  | Some (LDecimal negative m e) =>
      negb negative && scaled_ge m e (3 * 2 ^ 52 - 1) (2 ^ 52)
  | None => false
  end.

(** [v >= 3] *)
Definition ge_3 (v : Value) : bool :=
  match v with
  | VNum (Num z) => (3 <=? z)%Z
  | VNum (Infinity negative) => negb negative
  | VStr s => string_ge_3 s
  | VArr _ _ => string_ge_3 (to_string v)
  | _ => false
  end.

(** The callback of [strings.map] on any element.  [str.length] throws on
    [null] and [undefined] and is [undefined] on numbers and booleans;
    behind the length test only a string has a [replace] method. *)
Definition prettify_element (str : Value) : result Value :=
  match str with
  | VStr s => Ok (VStr (prettify_token s))
  | VUndefined | VNull => Throw TypeError
  | VBool _ | VNum _ => Ok str
  | VArr _ items => if (3 <=? List.length items)%nat then Throw TypeError else Ok str
  | VObj _ props => if ge_3 (get "length" props) then Throw TypeError else Ok str
  end.

(** [items.map(f)] for a callback that may throw. *)
Fixpoint map_result {A B : Type} (f : A -> result B) (items : list A)
  : result (list B) :=
  match items with
  | [] => Ok []
  | x :: rest => y <- f x ;; ys <- map_result f rest ;; Ok (y :: ys)
  end.

(** [prettifyString(strings, arraySep = '; ')] of [src/utils.js]. *)
Definition prettifyString (strings : Value) (arraySep : string) : result string :=
  let strings :=
    match strings with
    | VArr _ items => items
    | _ => [VStr (to_string strings)]
    end in
  strings <- map_result prettify_element strings ;;
  Ok (join arraySep strings).

Definition default_arraySep : string := "; ".

(** Some word of [s] starts with a lower-case letter: a word starts at a
    character behind a space and, when [at_start], at the head of [s]. *)
Fixpoint lower_word_start (at_start : bool) (s : string) : bool :=
  match s with
  | EmptyString => false
  | String c s' =>
      (at_start && is_lower c) || lower_word_start (Ascii.eqb c " ") s'
  end.

(** [s] is made of digits. *)
Fixpoint all_digits (s : string) : bool :=
  match s with
  | EmptyString => true
  | String c s' => is_digit c && all_digits s'
  end.

(** [prettifyString(str)] of the single-string variant, on a string. *)
Definition prettifyString_legacy (str : string) : string :=
  if isNumeric str then str
  else if (2 <=? String.length str)%nat
  then capitalize (convert_case replacer_legacy str)
  else str.

(** ** replacePlaceholders *)

(** The first occurrence of [pattern] in [s]: what is before it and what
    is behind it. *)
Fixpoint find_first (pattern s : string) : option (string * string) :=
  match strip_prefix pattern s with
  | Some behind => Some (EmptyString, behind)
  | None =>
      match s with
      | EmptyString => None
      | String c s' =>
          match find_first pattern s' with
          | Some (before, behind) => Some (String c before, behind)
          | None => None
          end
      end
  end.


(** [GetSubstitution] for a string pattern, which captures nothing:
    [$$] is a dollar, [$&] the match, [$`] and [$'] what is before and
    behind it; any other character stands for itself. *)
Fixpoint get_substitution (matched before behind template : string) : string :=
  match template with
  | EmptyString => EmptyString
  | String "$" (String c rest as tail) =>
      if Ascii.eqb c "$" then String "$" (get_substitution matched before behind rest)
      else if Ascii.eqb c "&" then matched ++ get_substitution matched before behind rest
      else if Ascii.eqb c "`" then before ++ get_substitution matched before behind rest
      else if Ascii.eqb c "'" then behind ++ get_substitution matched before behind rest
      else String "$" (get_substitution matched before behind tail)
  | String c rest => String c (get_substitution matched before behind rest)
  end.

(** [s.replace(pattern, template)] for two strings: the first occurrence
    only. *)
Definition replace_string (s pattern template : string) : string :=
  match find_first pattern s with
  | Some (before, behind) =>
      before ++ get_substitution pattern before behind template ++ behind
  | None => s
  end.

(** [Array.isArray(vars) ? vars.join("; ") : vars], as the string that
    [replace] makes of it. *)
Definition replacement (vars : Value) : string :=
  match vars with
  | VArr _ items => join "; " items
  | _ => to_string vars
  end.

(** The body of the [for ... in] loop. *)
Definition replace_placeholder (message : string) (entry : string * Value)
  : string :=
  let '(placeholder, vars) := entry in
  replace_string message ("{" ++ placeholder ++ "}") (replacement vars).

(** [replacePlaceholders(message, variables = {})], for variables that
    [String] converts (see [printable]). *)
Definition replacePlaceholders (message variables : Value) : Value :=
  let variables :=
    match variables with VUndefined => VObj 0 [] | _ => variables end in
  match message, variables with
  | VStr m, VObj _ props => VStr (fold_left replace_placeholder props m)
  | _, _ => message
  end.

(** ** equals, unique and size *)

(** [Number::sameValueZero] *)
Definition same_number (x y : number) : bool :=
  match x, y with
  | NaN, NaN => true
  | Infinity a, Infinity b => Bool.eqb a b
  | Num a, Num b => Z.eqb a b
  | _, _ => false
  end.

(** [SameValueZero(a, b)], the equality of [Set] and of
    [Array.prototype.includes]: objects are the same at the same
    location. *)
Definition sameValueZero (a b : Value) : bool :=
  match a, b with
  | VUndefined, VUndefined => true
  | VNull, VNull => true
  | VBool x, VBool y => Bool.eqb x y
  | VNum x, VNum y => same_number x y
  | VStr x, VStr y => String.eqb x y
  | VArr l _, VArr l' _ => Nat.eqb l l'
  | VObj l _, VObj l' _ => Nat.eqb l l'
  | _, _ => false
  end.

(** [a === b], which differs on [NaN] only. *)
Definition strict_equal (a b : Value) : bool :=
  match a, b with
  | VNum NaN, VNum NaN => false
  | _, _ => sameValueZero a b
  end.

(** [Object.prototype.hasOwnProperty.call(obj, key)] *)
Definition has_key (key : string) (props : list (string * Value)) : bool :=
  existsb (fun entry => String.eqb (fst entry) key) props.

(** [f] holds of the elements of two lists position by position. *)
Fixpoint all2 {A B : Type} (f : A -> B -> bool) (xs : list A) (ys : list B)
  : bool :=
  match xs, ys with
  | x :: xs', y :: ys' => f x y && all2 f xs' ys'
  | _, _ => true
  end.

(** Modelled from the spec: the function [equal] of the package
    [fast-deep-equal/es6], which [src/utils.js] imports and which is not
    part of the sources.  Two values are equal if they are identical, or
    arrays of equal length with equal elements position by position, or
    objects with as many keys, every key of the first present in the second
    with an equal value, or both [NaN].  Each value of the first object is
    met once, under its key. *)
Fixpoint equal (a b : Value) {struct a} : bool :=
  strict_equal a b ||
  match a, b with
  | VArr _ xs, VArr _ ys =>
      Nat.eqb (List.length xs) (List.length ys) && all2 equal xs ys
  | VObj _ ps, VObj _ qs =>
      Nat.eqb (List.length ps) (List.length qs) &&
      forallb (fun entry => has_key (fst entry) qs) ps &&
      forallb (fun entry => equal (snd entry) (get (fst entry) qs)) ps
  | VNum NaN, VNum NaN => true
  | _, _ => false
  end.

(** [Utils.equals] *)
Definition equals (x y : Value) : bool := equal x y.

(** [arr.findIndex(p)], [-1] when nothing is found. *)
Fixpoint findIndex (p : Value -> bool) (arr : list Value) : Z :=
  match arr with
  | [] => (-1)%Z
  | x :: rest =>
      if p x then 0%Z
      else match findIndex p rest with
           | Zneg _ => (-1)%Z
           | i => (i + 1)%Z
           end
  end.

(** [array.filter((s1, pos, arr) => f(s1, pos))], from position [pos] on. *)
Fixpoint filter_from (f : Value -> Z -> bool) (pos : Z) (items : list Value)
  : list Value :=
  match items with
  | [] => []
  | s1 :: rest =>
      if f s1 pos then s1 :: filter_from f (pos + 1)%Z rest
      else filter_from f (pos + 1)%Z rest
  end.

(** [set.add(x)] on the elements of a [Set] in insertion order *)
Definition set_add (elements : list Value) (x : Value) : list Value :=
  if existsb (sameValueZero x) elements then elements else elements ++ [x].

(** [[...new Set(iterable)]] *)
Definition spread_set (iterable : list Value) : list Value :=
  fold_left set_add iterable [].

(** [unique(array, useEquals = false)].  Only an array has a [filter]
    method; [new Set] takes [undefined], [null] and whatever is iterable:
    arrays and strings. *)
Definition unique (array : Value) (useEquals : bool) : result (list Value) :=
  if useEquals then
    match array with
    | VArr _ arr =>
        Ok (filter_from
              (fun s1 pos => Z.eqb (findIndex (fun s2 => equals s1 s2) arr) pos)
              0%Z arr)
    | _ => Throw TypeError
    end
  else
    match array with
    | VArr _ arr => Ok (spread_set arr)
    | VStr s => Ok (spread_set (chars s))
    | VUndefined | VNull => Ok []
    | _ => Throw TypeError
    end.

(** The spec's words for [unique]: an element is kept when no element
    before it in the sequence is equal to it, [earlier] being the elements
    met so far. *)
Fixpoint first_occurrences (eq : Value -> Value -> bool)
  (earlier seq : list Value) : list Value :=
  match seq with
  | [] => []
  | x :: rest =>
      if existsb (eq x) earlier
      then first_occurrences eq (earlier ++ [x]) rest
      else x :: first_occurrences eq (earlier ++ [x]) rest
  end.

(** The equality of either mode. *)
Definition unique_eq (useEquals : bool) : Value -> Value -> bool :=
  if useEquals then equals else sameValueZero.

(** [Utils.size] *)
Definition size (obj : Value) : nat :=
  match obj with
  | VArr _ items => List.length items
  | VObj _ props => List.length props
  | _ => 0
  end.

(** ** deepClone *)

(** A JSON text, by its syntax tree. *)
#[local] Unset Elimination Schemes.

Inductive Json : Type :=
| JNull
| JBool (b : bool)
| JNumber (z : Z)
| JString (s : string)
| JArray (elements : list Json)
| JObject (members : list (string * Json)).

#[local] Set Elimination Schemes.

(** [JSON.stringify(v)]; [None] is [undefined], the result for
    [undefined].  An [undefined] element of an array is written [null], an
    [undefined] property is left out, and so is a number that is not
    finite written [null]. *)
Fixpoint stringify_members (stringify : Value -> option Json)
  (props : list (string * Value)) : list (string * Json) :=
  match props with
  | [] => []
  | (key, x) :: rest =>
      match stringify x with
      | Some j => (key, j) :: stringify_members stringify rest
      | None => stringify_members stringify rest
      end
  end.

Definition stringify_element (stringify : Value -> option Json) (x : Value)
  : Json :=
  match stringify x with
  | Some j => j
  | None => JNull
  end.

Fixpoint stringify (v : Value) : option Json :=
  match v with
  | VUndefined => None
  | VNull => Some JNull
  | VBool b => Some (JBool b)
  | VNum (Num z) => Some (JNumber z)
  | VNum _ => Some JNull
  | VStr s => Some (JString s)
  | VArr _ items => Some (JArray (map (stringify_element stringify) items))
  | VObj _ props => Some (JObject (stringify_members stringify props))
  end.

(** [JSON.parse(text)] on a well-formed text.  Every array and every
    object of the result is allocated at the next free location [next],
    and the next free location is returned with the value. *)
Fixpoint parse_elements (parse : Json -> loc -> Value * loc)
  (elements : list Json) (next : loc) : list Value * loc :=
  match elements with
  | [] => ([], next)
  | j :: rest =>
      let '(v, next) := parse j next in
      let '(vs, next) := parse_elements parse rest next in
      (v :: vs, next)
  end.

Fixpoint parse_members (parse : Json -> loc -> Value * loc)
  (members : list (string * Json)) (props : list (string * Value))
  (next : loc) : list (string * Value) * loc :=
  match members with
  | [] => (props, next)
  | (key, j) :: rest =>
      let '(v, next) := parse j next in
      parse_members parse rest (set_prop key v props) next
  end.

Fixpoint parse (j : Json) (next : loc) {struct j} : Value * loc :=
  match j with
  | JNull => (VNull, next)
  | JBool b => (VBool b, next)
  | JNumber z => (VNum (Num z), next)
  | JString s => (VStr s, next)
  | JArray elements =>
      let '(items, next') := parse_elements parse elements (S next) in
      (VArr next items, next')
  | JObject members =>
      let '(props, next') := parse_members parse members [] (S next) in
      (VObj next props, next')
  end.

(** [deepClone(x)]: [JSON.parse(JSON.stringify(x))], run with [next] as the
    next free location.  [JSON.parse(undefined)] is a syntax error. *)
Definition deepClone (x : Value) (next : loc) : result (Value * loc) :=
  match stringify x with
  | Some text => Ok (parse text next)
  | None => Throw SyntaxError
  end.

(** The locations of the arrays and objects of a value. *)
Fixpoint locations (v : Value) : list loc :=
  match v with
  | VArr l items => l :: flat_map locations items
  | VObj l props => l :: flat_map (fun entry => locations (snd entry)) props
  | _ => []
  end.

(** The keys of an object are pairwise distinct. *)
Fixpoint distinct_keys (props : list (string * Value)) : bool :=
  match props with
  | [] => true
  | (key, _) :: rest => negb (has_key key rest) && distinct_keys rest
  end.

(** A JSON-compatible value: [null], a boolean, a finite number, a string,
    an array of such values or an object of such values. *)
Fixpoint json_compatible (v : Value) : bool :=
  match v with
  | VUndefined => false
  | VNull | VBool _ | VStr _ => true
  | VNum (Num _) => true
  | VNum _ => false
  | VArr _ items => forallb json_compatible items
  | VObj _ props =>
      distinct_keys props &&
      forallb (fun entry => json_compatible (snd entry)) props
  end.

(** ** compareStringCaseInsensitive and friendlyLinks *)

(** [compareStringCaseInsensitive(a, b)].  [localeCompare] stands for
    [(a, b) => a.localeCompare(b, undefined, {numeric: true, sensitivity:
    'base'})], the collation of the host. *)
Definition compareStringCaseInsensitive (localeCompare : string -> string -> Z)
  (a b : Value) : Z :=
  let a := if is_string a then a else VStr (to_string a) in
  let b := if is_string b then b else VStr (to_string b) in
  match a, b with
  | VStr a, VStr b => localeCompare a b
  | _, _ => 0%Z
  end.

(** A prefix of [s] that is [p] up to the case of letters, [p] being in
    lower case: what the [i] flag makes of a literal. *)
Fixpoint strip_prefix_ci (p s : string) : option string :=
  match p, s with
  | EmptyString, _ => Some s
  | String a p', String b s' =>
      if Ascii.eqb a (lower_char b) then strip_prefix_ci p' s' else None
  | String _ _, EmptyString => None
  end.

(** [.] of a regular expression: anything but a line terminator. *)
Definition is_line_terminator (c : ascii) : bool :=
  Ascii.eqb c "010" || Ascii.eqb c "013".

(** [href.replace(/^https?:\/\/(www.)?/i, '')] *)
Definition strip_scheme (href : string) : string :=
  match strip_prefix_ci "http" href with
  | None => href
  | Some r =>
      let r := match strip_prefix_ci "s" r with Some r' => r' | None => r end in
      match strip_prefix "://" r with
      | None => href
      | Some r =>
          match strip_prefix_ci "www" r with
          | Some (String c r') => if is_line_terminator c then r else r'
          | _ => r
          end
      end
  end.

(** [ignoreRel.includes(x)] *)
Definition includes (arr : list Value) (x : Value) : bool :=
  existsb (fun y => sameValueZero y x) arr.

(** [typeof link.rel === 'string' && ignoreRel.includes(link.rel.toLowerCase())] *)
Definition ignored (ignoreRel : list Value) (link : list (string * Value)) : bool :=
  match get "rel" link with
  | VStr rel => includes ignoreRel (VStr (toLowerCase rel))
  | _ => false
  end.

(** [rel] is an entry of [ignoreRel] up to case. *)
Definition matches_ci (ignoreRel : list Value) (rel : string) : bool :=
  existsb (fun entry =>
             match entry with
             | VStr e => String.eqb (toLowerCase e) (toLowerCase rel)
             | _ => false
             end) ignoreRel.

(** The [rel] of a link is a string and an entry of [ignoreRel] up to
    case. *)
Definition rel_matches (ignoreRel : list Value) (link : list (string * Value))
  : bool :=
  match get "rel" link with
  | VStr rel => matches_ci ignoreRel rel
  | _ => false
  end.

(** [typeof link.title !== 'string' || link.title.length === 0] *)
Definition lacks_title (link : list (string * Value)) : bool :=
  match get "title" link with
  | VStr title => Nat.eqb (String.length title) 0
  | _ => true
  end.

(** The title given to a link that lacks one; [link.href.replace] throws
    unless [href] is a string. *)
Definition derive_title (link : list (string * Value)) : result string :=
  if match get "rel" link with
     | VStr rel => (1 <? String.length rel)%nat
     | _ => false
     end
  then prettifyString (get "rel" link) default_arraySep
  else match get "href" link with
       | VStr href => Ok (strip_trailing_slash (strip_scheme href))
       | _ => Throw TypeError
       end.

(** The [for ... of] loop: the links pushed, as their properties. *)
Fixpoint curate (ignoreRel : list Value) (linkList : list Value)
  : result (list (list (string * Value))) :=
  match linkList with
  | [] => Ok []
  | link :: rest =>
      let link := own_props link in
      if ignored ignoreRel link then curate ignoreRel rest
      else
        link <- (if lacks_title link
                 then title <- derive_title link ;;
                      Ok (set_prop "title" (VStr title) link)
                 else Ok link) ;;
        links <- curate ignoreRel rest ;;
        Ok (link :: links)
  end.

(** [links.sort(compare)] for a consistent comparator: the stable sort. *)
Fixpoint insert_sorted {A : Type} (compare : A -> A -> Z) (x : A)
  (sorted : list A) : list A :=
  match sorted with
  | [] => [x]
  | y :: rest =>
      if (compare x y <=? 0)%Z then x :: sorted
      else y :: insert_sorted compare x rest
  end.

Definition sort {A : Type} (compare : A -> A -> Z) (items : list A) : list A :=
  fold_right (insert_sorted compare) [] items.

Definition default_ignoreRel : list Value := [VStr "self"].

(** [friendlyLinks(linkList, sort = true, ignoreRel = ['self'])]: the
    links of the result, each a fresh object given by its properties. *)
Definition friendlyLinks (localeCompare : string -> string -> Z)
  (linkList : Value) (sorted : bool) (ignoreRel : list Value)
  : result (list (list (string * Value))) :=
  match linkList with
  | VArr _ items =>
      links <- curate ignoreRel items ;;
      Ok (if sorted
          then sort (fun a b => compareStringCaseInsensitive localeCompare
                                  (get "title" a) (get "title" b)) links
          else links)
  | _ => Ok []
  end.

(** ** Induction on values *)

(** The clone of a value made at [next]: it is equal to the value, and its
    arrays and objects are at locations of their own from [next] on. *)
Definition clones_well (v : Value) : Prop :=
  forall next : loc,
    json_compatible v = true ->
    exists text v' next',
      stringify v = Some text /\
      parse text next = (v', next') /\
      equals v' v = true /\
      next <= next' /\
      (forall l, In l (locations v') -> next <= l < next') /\
      NoDup (locations v').

Section ValueInduction.

Variable P : Value -> Prop.
Hypothesis Hundefined : P VUndefined.
Hypothesis Hnull : P VNull.
Hypothesis Hbool : forall b, P (VBool b).
Hypothesis Hnum : forall n, P (VNum n).
Hypothesis Hstr : forall s, P (VStr s).
Hypothesis Harr : forall l items, Forall P items -> P (VArr l items).
Hypothesis Hobj :
  forall l props, Forall (fun entry => P (snd entry)) props -> P (VObj l props).

Fixpoint Value_ind (v : Value) : P v :=
  match v with
  | VUndefined => Hundefined
  | VNull => Hnull
  | VBool b => Hbool b
  | VNum n => Hnum n
  | VStr s => Hstr s
  | VArr l items =>
      Harr l items
        ((fix all (items : list Value) : Forall P items :=
            match items with
            | [] => Forall_nil P
            | x :: rest => Forall_cons x (Value_ind x) (all rest)
            end) items)
  | VObj l props =>
      Hobj l props
        ((fix all (props : list (string * Value))
            : Forall (fun entry => P (snd entry)) props :=
            match props with
            | [] => Forall_nil _
            | (key, x) :: rest =>
                Forall_cons (key, x) (Value_ind x : P (snd (key, x))) (all rest)
            end) props)
  end.

End ValueInduction.

(** ** omitFromObject, pickFromObject, mapObject and mapObjectValues *)

Definition is_proto (key : string) : bool := String.eqb key "__proto__".

(** The own properties of [Object.assign({}, v)] and of any fresh object
    filled by assignments [copy[key] = x]: assigning to [__proto__] runs
    the setter of [Object.prototype] and leaves no property behind. *)
Definition assigned (props : list (string * Value)) : list (string * Value) :=
  filter (fun entry => negb (is_proto (fst entry))) props.

(** [delete copy[key]] *)
Definition delete_prop (key : string) (props : list (string * Value))
  : list (string * Value) :=
  filter (fun entry => negb (String.eqb (fst entry) key)) props.

(** The property keys that [toPick.forEach] and [for (let key of toOmit)]
    go through, a string standing for the array of itself: anything but a
    string and an array has no [forEach] and is not iterable. *)
Definition property_keys (keys : Value) : result (list string) :=
  match keys with
  | VStr key => Ok [key]
  | VArr _ items => Ok (map to_string items)
  | _ => Throw TypeError
  end.

(** [omitFromObject(obj, toOmit)]: the properties of the copy. *)
Definition omitFromObject (obj toOmit : Value) : result (list (string * Value)) :=
  let copy := assigned (own_props obj) in
  keys <- property_keys toOmit ;;
  Ok (fold_left (fun copy key => delete_prop key copy) keys copy).

(** What [obj[key]] gives on a plain object: a value of the object, or
    the member of [Object.prototype] of that name ([__proto__] giving
    [Object.prototype] itself). *)
Inductive picked : Type :=
| Own (v : Value)
| Inherited (name : string).

Definition Object_prototype : list string :=
  [ "constructor"; "__defineGetter__"; "__defineSetter__"; "hasOwnProperty";
    "__lookupGetter__"; "__lookupSetter__"; "isPrototypeOf";
    "propertyIsEnumerable"; "toString"; "valueOf"; "__proto__";
    "toLocaleString" ].

(** [obj[key]] *)
Definition read_property (obj : list (string * Value)) (key : string) : picked :=
  match lookup key obj with
  | Some v => Own v
  | None =>
      if existsb (String.eqb key) Object_prototype then Inherited key
      else Own VUndefined
  end.

(** The array index that a key is: a decimal numeral without a leading
    zero, up to [2^32 - 2]. *)
Definition array_index (key : string) : option N :=
  match key with
  | String "0" (String _ _) => None
  | _ =>
      match take_digits 10 0 0 key with
      | (_, O, _) => None
      | (i, _, EmptyString) => if (i <=? 4294967294)%N then Some i else None
      | _ => None
      end
  end.

(** The place of a new key: an object enumerates its array indices in
    ascending order and then its other keys in the order they were
    created. *)
Definition comes_before (key k : string) : bool :=
  match array_index key, array_index k with
  | Some i, Some j => (i <? j)%N
  | Some _, None => true
  | None, _ => false
  end.

(** [copy[key] = x] on the properties of an object in enumeration order:
    an existing property keeps its place. *)
Fixpoint set_picked (key : string) (x : picked) (copy : list (string * picked))
  : list (string * picked) :=
  match copy with
  | [] => [(key, x)]
  | (k, y) :: rest =>
      if String.eqb k key then (k, x) :: rest
      else if comes_before key k then (key, x) :: copy
      else (k, y) :: set_picked key x rest
  end.

(** A key that is neither [__proto__] nor an array index. *)
Definition plain_key (key : string) : bool :=
  negb (is_proto key) &&
  match array_index key with
  | None => true
  | Some _ => false
  end.

(** The [__proto__] setter takes an object or [null] for the new
    prototype and ignores anything else. *)
Definition is_prototype (x : picked) : bool :=
  match x with
  | Own VNull | Own (VArr _ _) | Own (VObj _ _) | Inherited _ => true
  | Own _ => false
  end.

(** With [x] for its prototype the copy still finds the setter: not under
    [null], and not under an object with a property [__proto__] of its
    own. *)
Definition keeps_setter (x : picked) : bool :=
  match x with
  | Own VNull => false
  | Own (VObj _ props) => negb (has_key "__proto__" props)
  | _ => true
  end.

(** [copy[key] = x] on the fresh object of [pickFromObject]: its properties
    and whether an assignment to [__proto__] reaches the setter. *)
Definition put (state : list (string * picked) * bool) (key : string)
  (x : picked) : list (string * picked) * bool :=
  let '(copy, setter) := state in
  if is_proto key && setter
  then (copy, if is_prototype x then keeps_setter x else true)
  else (set_picked key x copy, setter).

(** [pickFromObject(obj, toPick)] on a plain object, given by its
    properties ([null] and [undefined] give the empty object): the
    properties of the copy. *)
Definition pickFromObject (obj : list (string * Value)) (toPick : Value)
  : result (list (string * picked)) :=
  keys <- property_keys toPick ;;
  Ok (fst (fold_left (fun state key => put state key (read_property obj key))
             keys ([], true))).

(** [mapObject(obj, func)], for a callback that changes nothing:
    [Object.keys] throws on [null] and [undefined]. *)
Definition mapObject (obj : Value)
  (func : Value -> string -> Value -> result Value) : result (list Value) :=
  match obj with
  | VUndefined | VNull => Throw TypeError
  | _ => map_result (fun entry => func (snd entry) (fst entry) obj)
           (own_props obj)
  end.

(** [Object(obj)], as far as a callback gets to see it: an array and an
    object are themselves, a string is wrapped. *)
Inductive wrapped : Type :=
| Itself (v : Value)
| StringObject (s : string).

Definition Object_of (obj : Value) : wrapped :=
  match obj with
  | VStr s => StringObject s
  | _ => Itself obj
  end.

(** [mapObjectValues(obj, func)], for a callback that changes nothing: the
    properties of the result. *)
Definition mapObjectValues (obj : Value)
  (func : Value -> string -> wrapped -> result Value)
  : result (list (string * Value)) :=
  entries <- map_result
               (fun entry =>
                  y <- func (snd entry) (fst entry) (Object_of obj) ;;
                  Ok (fst entry, y))
               (own_props obj) ;;
  Ok (assigned entries).

(** The strings of [keys] without repetition, in the order they come
    first. *)
Fixpoint distinct (seen keys : list string) : list string :=
  match keys with
  | [] => []
  | key :: rest =>
      if existsb (String.eqb key) seen then distinct (key :: seen) rest
      else key :: distinct (key :: seen) rest
  end.

(** ** Induction on JSON texts, and what the further properties speak of *)

Section JsonInduction.

Variable P : Json -> Prop.
Hypothesis Hnull : P JNull.
Hypothesis Hbool : forall b, P (JBool b).
Hypothesis Hnumber : forall z, P (JNumber z).
Hypothesis Hstring : forall s, P (JString s).
Hypothesis Harray : forall elements, Forall P elements -> P (JArray elements).
Hypothesis Hobject :
  forall members, Forall (fun member => P (snd member)) members ->
                  P (JObject members).

Fixpoint Json_ind (j : Json) : P j :=
  match j with
  | JNull => Hnull
  | JBool b => Hbool b
  | JNumber z => Hnumber z
  | JString s => Hstring s
  | JArray elements =>
      Harray elements
        ((fix all (elements : list Json) : Forall P elements :=
            match elements with
            | [] => Forall_nil P
            | j :: rest => Forall_cons j (Json_ind j) (all rest)
            end) elements)
  | JObject members =>
      Hobject members
        ((fix all (members : list (string * Json))
            : Forall (fun member => P (snd member)) members :=
            match members with
            | [] => Forall_nil _
            | (key, j) :: rest =>
                Forall_cons (key, j) (Json_ind j : P (snd (key, j))) (all rest)
            end) members)
  end.

End JsonInduction.

Definition is_undefined (v : Value) : bool :=
  match v with VUndefined => true | _ => false end.

(** A link record: an object with a string for its [href]. *)
Definition has_href (link : Value) : bool :=
  match link with
  | VObj _ props => is_string (get "href" props)
  | _ => false
  end.

(** The comparator of [links.sort]. *)
Definition compare_titles (localeCompare : string -> string -> Z)
  (a b : list (string * Value)) : Z :=
  compareStringCaseInsensitive localeCompare (get "title" a) (get "title" b).

(** [s] is made of white space. *)
Fixpoint all_ws (s : string) : bool :=
  match s with
  | EmptyString => true
  | String c s' => is_ws c && all_ws s'
  end.

(** [s] ends with a slash. *)
Fixpoint ends_with_slash (s : string) : bool :=
  match s with
  | EmptyString => false
  | String c EmptyString => Ascii.eqb c "/"
  | String _ s' => ends_with_slash s'
  end.

(** A slash or nothing. *)
Definition slash (present : bool) : string :=
  if present then "/" else EmptyString.

(** No element of [items] is equal to an element before it. *)
Fixpoint pairwise_distinct (eq : Value -> Value -> bool) (items : list Value)
  : bool :=
  match items with
  | [] => true
  | x :: rest =>
      negb (existsb (fun y => eq y x) rest) && pairwise_distinct eq rest
  end.

(** An integer that is a number of JavaScript printed digit by digit, [NaN]
    or an infinity. *)
Definition representable (n : number) : bool :=
  match n with
  | Num z => (Z.abs z <? 2 ^ 53)%Z
  | _ => true
  end.

(** [String(v)] returns, and returns [to_string v]: the numbers that are
    printed are [representable], and no object that is printed has a
    property [toString] of its own, which would not be a function. *)
Fixpoint printable (v : Value) : bool :=
  match v with
  | VNum n => representable n
  | VArr _ items => forallb printable items
  | VObj _ props => negb (has_key "toString" props)
  | _ => true
  end.

(** The code units of [s] are below 128. *)
Fixpoint ascii_only (s : string) : bool :=
  match s with
  | EmptyString => true
  | String c s' => (code c <? 128)%nat && ascii_only s'
  end.

(** * Properties *)

(** ** Sample evaluations *)

Example isNumeric_samples :
  map isNumeric ["42"; "1e-5"; " 12 "; "0x1F"; "-.5e+3"; "5."; "1e999";
                 ""; "abc"; "12px"; "Infinity"; "."; "0x"; "+-1"; "1e"]
  = [true; true; true; true; true; true; false;
     false; false; false; false; false; false; false; false].
Proof. vm_compute. reflexivity. Qed.

Example to_string_samples :
  map to_string [VNum (Num 42); VNum (Num (-7)); VNum (Num 0); VNull;
                 VArr 0 [VNum (Num 1); VNull; VArr 1 [VStr "a"; VStr "b"]];
                 VObj 0 []]
  = ["42"; "-7"; "0"; "null"; "1,,a,b"; "[object Object]"].
Proof. reflexivity. Qed.

Example prettifyString_samples :
  map (fun s => prettifyString (VStr s) default_arraySep)
      ["collection_id"; "spatialExtent"; "42"; "a_b_c"; "ab"; "band-name"; "1e-5"]
  = map Ok ["Collection Id"; "Spatial Extent"; "42"; "A B_c"; "ab"; "Band Name"; "1e 5"].
Proof. reflexivity. Qed.

Example prettifyString_legacy_samples :
  map prettifyString_legacy ["collection_id"; "spatialExtent"; "42"; "1e-5"; "ab"]
  = ["Collection id"; "Spatial Extent"; "42"; "1e-5"; "Ab"].
Proof. vm_compute. reflexivity. Qed.

Example replacePlaceholders_samples :
  map (fun '(m, props) => replacePlaceholders (VStr m) (VObj 0 props))
    [ ("Error in {field}: {msg}", [("field", VStr "bands"); ("msg", VStr "required")]);
      ("{a} and {a}", [("a", VStr "X")]);
      ("{a}", [("a", VStr "{b}"); ("b", VStr "X")]);
      ("{a}", [("b", VStr "X"); ("a", VStr "{b}")]);
      ("Bands: {b}", [("b", VArr 1 [VStr "B04"; VNull; VNum (Num 8)])]);
      ("<{a}>", [("a", VStr "$$|$&|$1|$`|$'|$")]) ]
  = map VStr [ "Error in bands: required"; "X and {a}"; "X"; "{b}";
               "Bands: B04; ; 8"; "<$|{a}|$1|<|>|$>" ].
Proof. reflexivity. Qed.

Example unique_samples :
  unique (VArr 0 [VNum (Num 1); VStr "1"; VNum (Num 1); VNum NaN; VNum NaN;
                  VObj 1 []; VObj 2 []; VObj 1 []]) false
  = Ok [VNum (Num 1); VStr "1"; VNum NaN; VObj 1 []; VObj 2 []] /\
  unique (VArr 0 [VNum (Num 1); VStr "1"; VNum (Num 1); VNum NaN; VNum NaN;
                  VObj 1 []; VObj 2 []; VObj 1 []]) true
  = Ok [VNum (Num 1); VStr "1"; VNum NaN; VObj 1 []].
Proof. split; reflexivity. Qed.

Example deepClone_samples :
  deepClone (VObj 3 [("a", VArr 4 [VNum (Num 1); VUndefined; VNum NaN]);
                     ("b", VUndefined); ("c", VObj 5 [])]) 10
  = Ok (VObj 10 [("a", VArr 11 [VNum (Num 1); VNull; VNull]); ("c", VObj 12 [])], 13)
  /\ deepClone VUndefined 0 = Throw SyntaxError.
Proof. split; reflexivity. Qed.

Example strip_scheme_samples :
  map strip_scheme ["https://www.x.org/a/"; "HTTP://WWWxy"; "ftp://x"; "http:/x";
                    "https://ww.x"; "xhttp://a"]
  = ["x.org/a/"; "y"; "ftp://x"; "http:/x"; "ww.x"; "xhttp://a"].
Proof. reflexivity. Qed.

(** ** Characters *)

Lemma is_lower_upper_char (c : ascii) : is_lower (upper_char c) = false.
Proof.
  destruct c as [[] [] [] [] [] [] [] []]; reflexivity.
Qed.

Lemma upper_char_space (c : ascii) :
  Ascii.eqb (upper_char c) " " = Ascii.eqb c " ".
Proof.
  destruct c as [[] [] [] [] [] [] [] []]; reflexivity.
Qed.

Lemma is_alnum_not_space (c : ascii) :
  is_alnum c = true -> Ascii.eqb c " " = false.
Proof.
  destruct c as [[] [] [] [] [] [] [] []]; simpl; intro H;
    first [ reflexivity | discriminate H ].
Qed.

Lemma is_digit_facts (c : ascii) :
  is_digit c = true ->
  is_lower c = false /\ upper_char c = c /\
  Ascii.eqb c "_" = false /\ Ascii.eqb c "-" = false.
Proof.
  destruct c as [[] [] [] [] [] [] [] []]; simpl; intro H;
    first [ discriminate H | repeat split ].
Qed.

(** ** normalizeUrl *)

Lemma strip_trailing_slash_cons2 (c d : ascii) (s : string) :
  strip_trailing_slash (String c (String d s))
  = String c (strip_trailing_slash (String d s)).
Proof. reflexivity. Qed.

Lemma strip_trailing_slash_twice (u : string) :
  ends_with_two_slashes u = false ->
  strip_trailing_slash (strip_trailing_slash u) = strip_trailing_slash u.
Proof.
  induction u as [| c u IH]; [reflexivity |].
  destruct u as [| d u].
  - intros _. simpl. destruct (Ascii.eqb c "/") eqn:E; simpl; [reflexivity |].
    rewrite E. reflexivity.
  - destruct u as [| e u].
    + simpl. intro H.
      destruct (Ascii.eqb d "/") eqn:Ed; simpl.
      * rewrite andb_true_r in H. rewrite H. reflexivity.
      * rewrite Ed. reflexivity.
    + intro H. change (ends_with_two_slashes (String d (String e u)) = false) in H.
      specialize (IH H).
      rewrite strip_trailing_slash_cons2.
      rewrite (strip_trailing_slash_cons2 d e u) in *.
      rewrite strip_trailing_slash_cons2. rewrite IH. reflexivity.
Qed.

Lemma strip_trailing_slash_length (u : string) :
  String.length (strip_trailing_slash u) <= String.length u.
Proof.
  induction u as [| c u IH]; [simpl; lia |].
  destruct u as [| d u].
  - simpl. destruct (Ascii.eqb c "/"); simpl; lia.
  - rewrite strip_trailing_slash_cons2. simpl in *. lia.
Qed.

(** Behind two slashes the second call removes one more character. *)
Lemma strip_trailing_slash_two_slashes (u : string) :
  ends_with_two_slashes u = true ->
  String.length (strip_trailing_slash (strip_trailing_slash u)) + 2
  = String.length u /\
  String.length (strip_trailing_slash u) + 1 = String.length u.
Proof.
  induction u as [| c u IH]; [discriminate |].
  destruct u as [| d u]; [discriminate |].
  destruct u as [| e u].
  - simpl. intro H. apply andb_prop in H. destruct H as [Hc Hd].
    rewrite Hd. simpl. rewrite Hc. split; reflexivity.
  - intro H. change (ends_with_two_slashes (String d (String e u)) = true) in H.
    destruct (IH H) as [IH2 IH1].
    rewrite strip_trailing_slash_cons2.
    rewrite (strip_trailing_slash_cons2 d e u) in *.
    rewrite strip_trailing_slash_cons2.
    cbn [String.length] in *. lia.
Qed.

(** The single-argument form is idempotent on no other string. *)
Lemma normalizeUrl_twice_differs (u : string) :
  ends_with_two_slashes u = true ->
  normalizeUrl_twice u <> normalizeUrl (VStr u) VUndefined.
Proof.
  intros H E. unfold normalizeUrl_twice in E. simpl in E.
  injection E as E.
  destruct (strip_trailing_slash_two_slashes u H) as [H2 H1].
  rewrite E in H2. lia.
Qed.

(** C2, as stated, fails: of two trailing slashes each call removes one. *)
Lemma normalizeUrl_twice_double_slash :
  normalizeUrl (VStr "https://api.example.com//") VUndefined
    = Ok "https://api.example.com/" /\
  normalizeUrl_twice "https://api.example.com//"
    = Ok "https://api.example.com" /\
  normalizeUrl_twice "https://api.example.com//"
    <> normalizeUrl (VStr "https://api.example.com//") VUndefined.
Proof.
  repeat split; try reflexivity. intro H. discriminate H.
Qed.

(** C2 (amended): on every string that does not end with two slashes the
    single-argument [normalizeUrl] is idempotent, and
    [normalizeUrl("https://api.example.com/", "/jobs/")] is
    ["https://api.example.com/jobs"]. *)
Theorem normalizeUrl_idempotent (u : string) :
  ends_with_two_slashes u = false ->
  normalizeUrl_twice u = normalizeUrl (VStr u) VUndefined /\
  normalizeUrl (VStr "https://api.example.com/") (VStr "/jobs/")
    = Ok "https://api.example.com/jobs".
Proof.
  intro H. split; [| reflexivity].
  unfold normalizeUrl_twice. simpl.
  rewrite (strip_trailing_slash_twice u H). reflexivity.
Qed.

Lemma normalizeUrl_idempotent_witness :
  ends_with_two_slashes "https://api.example.com/" = false /\
  normalizeUrl_twice "https://api.example.com/"
    = normalizeUrl (VStr "https://api.example.com/") VUndefined.
Proof.
  split; [reflexivity |].
  apply (normalizeUrl_idempotent "https://api.example.com/"). reflexivity.
Defined.

(** ** prettifyString *)

Lemma replace_separated_eq (r : ascii -> ascii -> string) (sep a x b : ascii)
  (rest : string) :
  replace_separated r sep (String a (String x (String b rest)))
  = if is_alnum a && Ascii.eqb x sep && is_alnum b
    then r a b ++ replace_separated r sep rest
    else String a (replace_separated r sep (String x (String b rest))).
Proof. reflexivity. Qed.

Lemma replace_camel_eq (r : ascii -> ascii -> string) (a b : ascii)
  (rest : string) :
  replace_camel r (String a (String b rest))
  = if is_lower a && is_upper b
    then r a b ++ replace_camel r rest
    else String a (replace_camel r (String b rest)).
Proof. reflexivity. Qed.

Lemma lower_word_start_replacer (a b : ascii) (s : string) :
  Ascii.eqb a " " = false ->
  Ascii.eqb b " " = false ->
  lower_word_start false (replacer a b ++ s) = lower_word_start false s.
Proof.
  intros Ha Hb. unfold replacer. simpl.
  rewrite is_lower_upper_char, upper_char_space, Hb. simpl.
  rewrite andb_false_r. reflexivity.
Qed.

Lemma lower_word_start_cons (a : ascii) (s : string) :
  Ascii.eqb a " " = false ->
  lower_word_start false (String a s) = lower_word_start false s.
Proof.
  intro Ha. simpl. rewrite Ha. reflexivity.
Qed.

(** The snake and kebab converters leave no word in lower case. *)
Lemma replace_separated_words (sep : ascii) (n : nat) :
  forall s : string,
    String.length s <= n ->
    includes_char " " s = false ->
    lower_word_start false (replace_separated replacer sep s) = false.
Proof.
  induction n as [| n IH]; intros s Hlen Hsp.
  - destruct s; [reflexivity | simpl in Hlen; lia].
  - destruct s as [| a [| x [| b rest]]]; try reflexivity.
    + simpl in *. apply orb_false_elim in Hsp. destruct Hsp as [Ha Hsp].
      rewrite Ha. reflexivity.
    + rewrite replace_separated_eq.
      simpl in Hsp.
      apply orb_false_elim in Hsp. destruct Hsp as [Ha Hsp].
      apply orb_false_elim in Hsp. destruct Hsp as [Hx Hsp].
      apply orb_false_elim in Hsp. destruct Hsp as [Hb Hsp].
      destruct (is_alnum a && Ascii.eqb x sep && is_alnum b).
      * rewrite lower_word_start_replacer by assumption.
        apply IH; [simpl in Hlen; lia | exact Hsp].
      * rewrite lower_word_start_cons by assumption.
        apply IH; [simpl in *; lia |].
        simpl. rewrite Hx, Hb. exact Hsp.
Qed.

(** So does the camel converter. *)
Lemma replace_camel_words (n : nat) :
  forall s : string,
    String.length s <= n ->
    includes_char " " s = false ->
    lower_word_start false (replace_camel replacer s) = false.
Proof.
  induction n as [| n IH]; intros s Hlen Hsp.
  - destruct s; [reflexivity | simpl in Hlen; lia].
  - destruct s as [| a [| b rest]]; try reflexivity.
    + rewrite replace_camel_eq.
      simpl in Hsp.
      apply orb_false_elim in Hsp. destruct Hsp as [Ha Hsp].
      apply orb_false_elim in Hsp. destruct Hsp as [Hb Hsp].
      destruct (is_lower a && is_upper b).
      * rewrite lower_word_start_replacer by assumption.
        apply IH; [simpl in Hlen; lia | exact Hsp].
      * rewrite lower_word_start_cons by assumption.
        apply IH; [simpl in *; lia |].
        simpl. rewrite Hb. exact Hsp.
Qed.

Lemma convert_case_words (s : string) :
  includes_char " " s = false ->
  lower_word_start false (convert_case replacer s) = false.
Proof.
  intro Hsp. unfold convert_case.
  destruct (includes_char "_" s);
    [| destruct (includes_char "-" s)].
  - now apply (replace_separated_words "_" (String.length s)).
  - now apply (replace_separated_words "-" (String.length s)).
  - now apply (replace_camel_words (String.length s)).
Qed.

Lemma capitalize_words (s : string) :
  lower_word_start false s = false ->
  lower_word_start true (capitalize s) = false.
Proof.
  destruct s as [| c s]; [reflexivity |].
  simpl. rewrite is_lower_upper_char, upper_char_space. trivial.
Qed.

(** On a string the array-accepting variant runs the callback once. *)
Lemma prettifyString_string (str sep : string) :
  prettifyString (VStr str) sep = Ok (prettify_token str).
Proof. reflexivity. Qed.

(** On an array of strings it runs the callback on each and joins what
    comes out. *)
Lemma prettifyString_strings (l : loc) (tokens : list string) (sep : string) :
  prettifyString (VArr l (map VStr tokens)) sep
  = Ok (String.concat sep (map prettify_token tokens)).
Proof.
  unfold prettifyString.
  assert (H : map_result prettify_element (map VStr tokens)
              = Ok (map (fun s => VStr (prettify_token s)) tokens)).
  { induction tokens as [| s tokens IH]; [reflexivity |].
    simpl. rewrite IH. reflexivity. }
  rewrite H. simpl. unfold join. rewrite map_map. reflexivity.
Qed.

(** A token of fewer than three characters is returned as it is. *)
Lemma prettifyString_short (str sep : string) :
  String.length str < 3 -> prettifyString (VStr str) sep = Ok str.
Proof.
  intro H. rewrite prettifyString_string. unfold prettify_token.
  destruct (Nat.leb_spec 3 (String.length str)); [lia | reflexivity].
Qed.

(** C1, as stated, fails: the replacer upper-cases the letter behind the
    separator, so ["collection_id"] becomes ["Collection Id"]. *)
Lemma prettifyString_collection_id :
  prettifyString (VStr "collection_id") default_arraySep = Ok "Collection Id" /\
  prettifyString (VStr "collection_id") default_arraySep <> Ok "Collection id" /\
  prettifyString (VStr "spatialExtent") default_arraySep <> Ok "Spatial extent".
Proof.
  repeat split; try reflexivity; intro H; discriminate H.
Qed.

(** C1 (amended): for every token of three characters or more without a
    space, the phrase made by the array-accepting [prettifyString] has no
    word that starts with a lower-case letter: the character behind every
    inserted space is upper-cased, and so is the first one.
    [prettifyString("collection_id")] is ["Collection Id"] and
    [prettifyString("spatialExtent")] is ["Spatial Extent"]. *)
Theorem prettifyString_capitalizes_words (str : string) :
  3 <= String.length str ->
  includes_char " " str = false ->
  (exists phrase,
      prettifyString (VStr str) default_arraySep = Ok phrase /\
      phrase = capitalize (convert_case replacer str) /\
      lower_word_start true phrase = false) /\
  prettifyString (VStr "collection_id") default_arraySep = Ok "Collection Id" /\
  prettifyString (VStr "spatialExtent") default_arraySep = Ok "Spatial Extent".
Proof.
  intros Hlen Hsp. split; [| split; reflexivity].
  exists (capitalize (convert_case replacer str)).
  rewrite prettifyString_string. unfold prettify_token.
  destruct (Nat.leb_spec 3 (String.length str)); [| lia].
  repeat split. apply capitalize_words, convert_case_words, Hsp.
Qed.

Lemma prettifyString_capitalizes_words_witness :
  exists phrase,
    prettifyString (VStr "band_name_id") default_arraySep = Ok phrase /\
    phrase = capitalize (convert_case replacer "band_name_id") /\
    lower_word_start true phrase = false.
Proof.
  apply (prettifyString_capitalizes_words "band_name_id");
    [simpl; lia | reflexivity].
Defined.

Lemma all_digits_no_separator (s : string) :
  all_digits s = true ->
  includes_char "_" s = false /\ includes_char "-" s = false.
Proof.
  induction s as [| c s IH]; simpl; [split; reflexivity |].
  intro H. apply andb_prop in H. destruct H as [Hc Hs].
  destruct (is_digit_facts c Hc) as (_ & _ & Hu & Hm).
  destruct (IH Hs) as [IHu IHm].
  rewrite Hu, Hm, IHu, IHm. split; reflexivity.
Qed.

Lemma all_digits_replace_camel (r : ascii -> ascii -> string) (s : string) :
  all_digits s = true -> replace_camel r s = s.
Proof.
  induction s as [| a s IH]; [reflexivity |].
  intro H. simpl in H. apply andb_prop in H. destruct H as [Ha Hs].
  destruct s as [| b rest]; [reflexivity |].
  rewrite replace_camel_eq.
  destruct (is_digit_facts a Ha) as (Hl & _).
  rewrite Hl. simpl andb. cbv iota. rewrite (IH Hs). reflexivity.
Qed.

Lemma all_digits_prettify_token (s : string) :
  all_digits s = true -> prettify_token s = s.
Proof.
  intro H. unfold prettify_token.
  destruct (3 <=? String.length s)%nat; [| reflexivity].
  unfold convert_case.
  destruct (all_digits_no_separator s H) as [Hu Hm].
  rewrite Hu, Hm, (all_digits_replace_camel replacer s H).
  destruct s as [| c s]; [reflexivity |].
  simpl in H. apply andb_prop in H. destruct H as [Hc _].
  destruct (is_digit_facts c Hc) as (_ & Hup & _).
  simpl. rewrite Hup. reflexivity.
Qed.

(** C5, as stated, fails for the array-accepting variant, which does not
    call [isNumeric]: ["1e-5"] is numeric and is read as kebab case. *)
Lemma prettifyString_numeric_changed :
  isNumeric "1e-5" = true /\
  prettifyString (VStr "1e-5") default_arraySep = Ok "1e 5" /\
  prettifyString (VStr "1e-5") default_arraySep <> Ok "1e-5".
Proof.
  split; [vm_compute; reflexivity |].
  split; [reflexivity | intro H; discriminate H].
Qed.

(** C5 (amended): the single-string variant of [prettifyString], which
    tests [isNumeric] first, returns every numeric token unchanged; the
    array-accepting variant has no such test and returns a token unchanged
    when it is made of digits only, as ["42"] is. *)
Theorem prettifyString_numeric_unchanged (str : string) :
  isNumeric str = true ->
  prettifyString_legacy str = str /\
  (all_digits str = true ->
   prettifyString (VStr str) default_arraySep = Ok str).
Proof.
  intro H. split.
  - unfold prettifyString_legacy. rewrite H. reflexivity.
  - intro Hd. rewrite prettifyString_string.
    rewrite (all_digits_prettify_token str Hd). reflexivity.
Qed.

Lemma prettifyString_numeric_unchanged_witness :
  isNumeric "2018" = true /\
  prettifyString_legacy "2018" = "2018" /\
  prettifyString (VStr "2018") default_arraySep = Ok "2018".
Proof.
  assert (H : isNumeric "2018" = true) by (vm_compute; reflexivity).
  split; [exact H |].
  destruct (prettifyString_numeric_unchanged "2018" H) as [Hl Hc].
  split; [exact Hl | apply Hc; reflexivity].
Defined.

(** ** replacePlaceholders *)

Lemma append_assoc (s t u : string) : (s ++ t) ++ u = s ++ (t ++ u).
Proof.
  induction s as [| c s IH]; simpl; [reflexivity | now rewrite IH].
Qed.


Lemma find_first_eq (pattern s : string) :
  find_first pattern s
  = match strip_prefix pattern s with
    | Some behind => Some (EmptyString, behind)
    | None =>
        match s with
        | EmptyString => None
        | String c s' =>
            match find_first pattern s' with
            | Some (before, behind) => Some (String c before, behind)
            | None => None
            end
        end
    end.
Proof. destruct s; reflexivity. Qed.



Lemma replacePlaceholders_fold (m : string) (l : loc)
  (props : list (string * Value)) :
  replacePlaceholders (VStr m) (VObj l props)
  = VStr (fold_left replace_placeholder props m).
Proof. reflexivity. Qed.





(** C10: the substitution runs key after key on the message as substituted
    so far, so a value that holds the placeholder of a key met later is
    substituted in turn: [replacePlaceholders("{a}", {a: "{b}", b: "X"})]
    is ["X"], while with [b] before [a] it is ["{b}"]. *)
Theorem replacePlaceholders_sequential :
  (forall (m : string) (l : loc) (key : string) (vars : Value)
          (rest : list (string * Value)),
      replacePlaceholders (VStr m) (VObj l ((key, vars) :: rest))
      = replacePlaceholders
          (VStr (replace_string m ("{" ++ key ++ "}") (replacement vars)))
          (VObj l rest)) /\
  replacePlaceholders (VStr "{a}") (VObj 0 [("a", VStr "{b}"); ("b", VStr "X")])
    = VStr "X" /\
  replacePlaceholders (VStr "{a}") (VObj 0 [("b", VStr "X"); ("a", VStr "{b}")])
    = VStr "{b}".
Proof.
  repeat split.
Qed.

(** ** Inputs of another shape *)

(** C3, as stated, fails: [unique] does not look at the shape of its
    input.  A number is not iterable, a string is iterated character by
    character, and nothing but an array has a [filter] method. *)
Lemma unique_wrong_shape :
  unique (VNum (Num 5)) false = Throw TypeError /\
  unique (VStr "aab") false = Ok [VStr "a"; VStr "b"] /\
  unique VNull true = Throw TypeError.
Proof. repeat split. Qed.

(** C3 (amended): for every input that is not an array, [size] is [0]
    unless the input is an object, and [friendlyLinks] returns an empty
    sequence.  [unique] has no check of its input: without deep equality it
    returns an empty sequence for [null] and [undefined], the distinct
    characters of a string, and throws on any other input that is not an
    array; with deep equality it throws on every input that is not an
    array. *)
Theorem wrong_shape_defaults (localeCompare : string -> string -> Z)
  (v : Value) (sorted : bool) (ignoreRel : list Value) :
  isArray v = false ->
  (isObject v = false -> size v = 0) /\
  friendlyLinks localeCompare v sorted ignoreRel = Ok [] /\
  (v = VNull \/ v = VUndefined -> unique v false = Ok []) /\
  (forall s, v = VStr s -> unique v false = Ok (spread_set (chars s))) /\
  (is_string v = false -> v <> VNull -> v <> VUndefined ->
   unique v false = Throw TypeError) /\
  unique v true = Throw TypeError.
Proof.
  intro H. split; [| split; [| split; [| split; [| split]]]].
  - intro Ho. destruct v; try reflexivity; discriminate.
  - destruct v; try reflexivity. discriminate H.
  - intros [-> | ->]; reflexivity.
  - intros s ->. reflexivity.
  - intros Hs Hn Hu. destruct v; try reflexivity; try discriminate; congruence.
  - destruct v; try reflexivity. discriminate H.
Qed.

Lemma wrong_shape_defaults_witness :
  size VNull = 0 /\
  friendlyLinks (fun _ _ => 0%Z) VNull true default_ignoreRel = Ok [] /\
  unique VNull false = Ok [].
Proof.
  destruct (wrong_shape_defaults (fun _ _ => 0%Z) VNull true default_ignoreRel
              eq_refl) as (Hsize & Hlinks & Hunique & _).
  split; [apply Hsize; reflexivity |].
  split; [exact Hlinks | apply Hunique; left; reflexivity].
Defined.

(** C4, as stated, fails: [normalizeUrl] calls [replace] on [baseUrl] as it
    is, and [prettifyString] maps over an array without coercing it or its
    elements. *)
Lemma normalizeUrl_number_throws :
  normalizeUrl (VNum (Num 42)) VUndefined = Throw TypeError /\
  normalizeUrl (VStr (to_string (VNum (Num 42)))) VUndefined = Ok "42" /\
  prettifyString (VArr 0 [VNull]) default_arraySep = Throw TypeError.
Proof. repeat split. Qed.

Lemma compareStringCaseInsensitive_to_string
  (localeCompare : string -> string -> Z) (a b : Value) :
  compareStringCaseInsensitive localeCompare a b
  = localeCompare (to_string a) (to_string b).
Proof. destruct a, b; reflexivity. Qed.

(** C4 (amended): for every non-string argument that [String] converts,
    [compareStringCaseInsensitive] compares the string forms of its
    arguments, and [prettifyString] turns an argument that is not an array
    into its string form and prettifies that, neither of them throwing;
    [normalizeUrl] coerces nothing: it throws on a [baseUrl] that is not a
    string and skips a [path] that is not a string. *)
Theorem non_string_arguments (localeCompare : string -> string -> Z)
  (v : Value) (arraySep : string) :
  is_string v = false ->
  printable v = true ->
  (forall b, printable b = true ->
             compareStringCaseInsensitive localeCompare v b
             = localeCompare (to_string v) (to_string b)) /\
  (forall a, printable a = true ->
             compareStringCaseInsensitive localeCompare a v
             = localeCompare (to_string a) (to_string v)) /\
  (isArray v = false ->
   prettifyString v arraySep = prettifyString (VStr (to_string v)) arraySep /\
   prettifyString v arraySep = Ok (prettify_token (to_string v))) /\
  (forall path, normalizeUrl v path = Throw TypeError) /\
  (forall base, normalizeUrl (VStr base) v = Ok (strip_trailing_slash base)).
Proof.
  intros H _. split; [| split; [| split; [| split]]].
  - intros b _. apply compareStringCaseInsensitive_to_string.
  - intros a _. apply compareStringCaseInsensitive_to_string.
  - intro Ha. destruct v; try discriminate; split; reflexivity.
  - intro path. destruct v; try reflexivity. discriminate H.
  - intro base. destruct v; try reflexivity. discriminate H.
Qed.

Lemma non_string_arguments_witness :
  compareStringCaseInsensitive (fun _ _ => 0%Z) (VNum (Num 42)) (VArr 0 [VNull])
  = 0%Z /\
  prettifyString (VNum (Num 42)) default_arraySep = Ok "42" /\
  normalizeUrl (VNum (Num 42)) VNull = Throw TypeError /\
  normalizeUrl (VStr "https://x.org/") (VNum (Num 42)) = Ok "https://x.org".
Proof.
  destruct (non_string_arguments (fun _ _ => 0%Z) (VNum (Num 42))
              default_arraySep eq_refl eq_refl) as (Hc & _ & Hp & Hn & Hpath).
  split; [apply (Hc (VArr 0 [VNull])); reflexivity |].
  split; [apply Hp; reflexivity |].
  split; [apply Hn | apply Hpath].
Defined.

(** ** friendlyLinks *)

Lemma get_set_prop_other (key k : string) (v : Value)
  (props : list (string * Value)) :
  String.eqb key k = false ->
  get k (set_prop key v props) = get k props.
Proof.
  intro H. unfold get.
  induction props as [| [k' w] props IH]; simpl.
  - rewrite H. reflexivity.
  - destruct (String.eqb k' key) eqn:E; simpl.
    + apply String.eqb_eq in E. subst k'. rewrite H. reflexivity.
    + destruct (String.eqb k' k); [reflexivity | exact IH].
Qed.

Lemma insert_sorted_In {A : Type} (compare : A -> A -> Z) (x y : A)
  (sorted : list A) :
  In y (insert_sorted compare x sorted) <-> y = x \/ In y sorted.
Proof.
  induction sorted as [| z sorted IH]; simpl.
  - intuition.
  - destruct (compare x z <=? 0)%Z; simpl; [intuition |].
    rewrite IH. intuition.
Qed.

(** Sorting neither adds a link nor loses one. *)
Lemma sort_In {A : Type} (compare : A -> A -> Z) (y : A) (items : list A) :
  In y (sort compare items) <-> In y items.
Proof.
  induction items as [| x items IH]; simpl; [reflexivity |].
  rewrite insert_sorted_In, IH. intuition.
Qed.

(** C6: every link whose [rel] matches an entry of [ignoreRel] up to case
    is to be dropped, for every [ignoreRel] list.  The code lower-cases the
    [rel] of a link and not the entries of [ignoreRel]: with [ignoreRel =
    ["Self"]] the link with [rel] ["Self"], which matches that entry, is
    kept and comes back with the title ["Self"]. *)
Theorem friendlyLinks_keeps_capital_entry :
  rel_matches [VStr "Self"]
    [("href", VStr "https://x.org/a"); ("rel", VStr "Self")] = true /\
  (forall localeCompare : string -> string -> Z,
      friendlyLinks localeCompare
        (VArr 0 [VObj 1 [("href", VStr "https://x.org/a"); ("rel", VStr "Self")]])
        true [VStr "Self"]
      = Ok [[("href", VStr "https://x.org/a"); ("rel", VStr "Self");
             ("title", VStr "Self")]]).
Proof. split; [| intro localeCompare]; reflexivity. Qed.

(** ** unique *)

Lemma same_number_trans (x y z : number) :
  same_number x y = true -> same_number y z = true -> same_number x z = true.
Proof.
  destruct x, y, z; simpl; try discriminate; try reflexivity.
  - intros H1 H2. apply Bool.eqb_prop in H1. subst. exact H2.
  - intros H1 H2. apply Z.eqb_eq in H1. subst. exact H2.
Qed.

Lemma sameValueZero_trans (x y z : Value) :
  sameValueZero x y = true -> sameValueZero y z = true ->
  sameValueZero x z = true.
Proof.
  destruct x, y, z; simpl; try discriminate; try reflexivity.
  - intros H1 H2. apply Bool.eqb_prop in H1. subst. exact H2.
  - apply same_number_trans.
  - intros H1 H2. apply String.eqb_eq in H1. subst. exact H2.
  - intros H1 H2. apply Nat.eqb_eq in H1. subst. exact H2.
  - intros H1 H2. apply Nat.eqb_eq in H1. subst. exact H2.
Qed.

Lemma sameValueZero_refl (x : Value) : sameValueZero x x = true.
Proof.
  destruct x as [| | b | n | s | l items | l props]; simpl; try reflexivity.
  - apply Bool.eqb_reflx.
  - destruct n; simpl; [reflexivity | apply Bool.eqb_reflx | apply Z.eqb_refl].
  - apply String.eqb_refl.
  - apply Nat.eqb_refl.
  - apply Nat.eqb_refl.
Qed.

(** Deep equality holds between a value and itself, [NaN] included. *)
Lemma equals_refl (x : Value) : equals x x = true.
Proof.
  unfold equals.
  destruct x as [| | b | n | s | l items | l props];
    try (simpl; reflexivity).
  - simpl. rewrite Bool.eqb_reflx. reflexivity.
  - destruct n; simpl; try reflexivity.
    + rewrite Bool.eqb_reflx. reflexivity.
    + rewrite Z.eqb_refl. reflexivity.
  - simpl. rewrite String.eqb_refl. reflexivity.
  - simpl. rewrite Nat.eqb_refl. reflexivity.
  - simpl. rewrite Nat.eqb_refl. reflexivity.
Qed.

Lemma existsb_incl (p : Value -> bool) (small large : list Value) :
  incl small large -> existsb p large = false -> existsb p small = false.
Proof.
  intros Hincl H.
  destruct (existsb p small) eqn:E; [| reflexivity].
  apply existsb_exists in E. destruct E as (x & Hin & Hp).
  assert (existsb p large = true) by (apply existsb_exists; eauto).
  congruence.
Qed.

(** Keeping first occurrences a second time, with no more elements to
    compare with than the first time, changes nothing. *)
Lemma first_occurrences_again (eq : Value -> Value -> bool) (seq : list Value) :
  forall earlier earlier',
    incl earlier' earlier ->
    first_occurrences eq earlier' (first_occurrences eq earlier seq)
    = first_occurrences eq earlier seq.
Proof.
  induction seq as [| x seq IH]; intros earlier earlier' Hincl;
    [reflexivity |].
  simpl. destruct (existsb (eq x) earlier) eqn:E.
  - apply IH. apply incl_appl, Hincl.
  - simpl. rewrite (existsb_incl _ _ _ Hincl E). f_equal.
    apply IH. apply incl_app; [apply incl_appl, Hincl | apply incl_appr, incl_refl].
Qed.

(** The elements of a [Set] are the first occurrences of what was added. *)
Lemma fold_set_add (seq : list Value) :
  forall elements earlier,
    (forall z, existsb (sameValueZero z) elements
               = existsb (sameValueZero z) earlier) ->
    fold_left set_add seq elements
    = (elements ++ first_occurrences sameValueZero earlier seq)%list.
Proof.
  induction seq as [| x seq IH]; intros elements earlier Hinv; simpl.
  - now rewrite app_nil_r.
  - unfold set_add at 2. rewrite <- (Hinv x).
    destruct (existsb (sameValueZero x) elements) eqn:E.
    + apply IH. intro z. rewrite existsb_app, <- Hinv. simpl.
      rewrite orb_false_r.
      destruct (sameValueZero z x) eqn:Ezx; [| now rewrite orb_false_r].
      rewrite orb_true_r.
      apply existsb_exists in E. destruct E as (a & Hin & Hxa).
      apply existsb_exists. exists a. split; [exact Hin |].
      exact (sameValueZero_trans z x a Ezx Hxa).
    + rewrite (IH (elements ++ [x])%list (earlier ++ [x])%list).
      * rewrite <- app_assoc. reflexivity.
      * intro z. rewrite !existsb_app, Hinv. reflexivity.
Qed.

Lemma spread_set_first_occurrences (seq : list Value) :
  spread_set seq = first_occurrences sameValueZero [] seq.
Proof.
  unfold spread_set. now rewrite (fold_set_add seq [] []).
Qed.

Lemma findIndex_cons (p : Value -> bool) (x : Value) (arr : list Value) :
  findIndex p (x :: arr)
  = if p x then 0%Z
    else match findIndex p arr with
         | Zneg _ => (-1)%Z
         | i => (i + 1)%Z
         end.
Proof. reflexivity. Qed.

Lemma findIndex_found (p : Value -> bool) (before behind : list Value) :
  existsb p before = true ->
  (0 <= findIndex p (before ++ behind)%list < Z.of_nat (List.length before))%Z.
Proof.
  induction before as [| x before IH]; [discriminate |].
  intro H. rewrite <- app_comm_cons, findIndex_cons.
  cbn [List.length]. rewrite Nat2Z.inj_succ.
  simpl in H. destruct (p x); [lia |].
  specialize (IH H).
  destruct (findIndex p (before ++ behind)%list); lia.
Qed.

Lemma findIndex_here (p : Value -> bool) (before : list Value) (x : Value)
  (behind : list Value) :
  existsb p before = false ->
  p x = true ->
  findIndex p (before ++ x :: behind)%list = Z.of_nat (List.length before).
Proof.
  intros H Hx. induction before as [| y before IH].
  - simpl. rewrite Hx. reflexivity.
  - rewrite <- app_comm_cons, findIndex_cons.
    cbn [List.length]. rewrite Nat2Z.inj_succ.
    simpl in H. apply orb_false_elim in H. destruct H as [Hy H].
    rewrite Hy, (IH H).
    destruct (Z.of_nat (List.length before)) eqn:E; lia.
Qed.

(** The filter of the deep mode keeps the first occurrences. *)
Lemma filter_first_occurrences (seq : list Value) :
  forall earlier,
    filter_from
      (fun s1 pos =>
         Z.eqb (findIndex (fun s2 => equals s1 s2) (earlier ++ seq)%list) pos)
      (Z.of_nat (List.length earlier)) seq
    = first_occurrences equals earlier seq.
Proof.
  induction seq as [| x seq IH]; intro earlier; [reflexivity |].
  cbn [filter_from first_occurrences].
  assert (Hrest :
    filter_from
      (fun s1 pos =>
         Z.eqb (findIndex (fun s2 => equals s1 s2) (earlier ++ x :: seq)%list) pos)
      (Z.of_nat (List.length earlier) + 1)%Z seq
    = first_occurrences equals (earlier ++ [x])%list seq).
  { rewrite <- (IH (earlier ++ [x])%list).
    rewrite length_app, Nat2Z.inj_add. cbn [List.length].
    rewrite <- app_assoc. reflexivity. }
  destruct (existsb (equals x) earlier) eqn:E.
  - pose proof (findIndex_found (fun s2 => equals x s2) earlier (x :: seq) E) as Hi.
    destruct (Z.eqb_spec
                (findIndex (fun s2 => equals x s2) (earlier ++ x :: seq)%list)
                (Z.of_nat (List.length earlier))); [lia | exact Hrest].
  - rewrite (findIndex_here (fun s2 => equals x s2) earlier x seq E (equals_refl x)).
    rewrite Z.eqb_refl, Hrest. reflexivity.
Qed.

Lemma unique_first_occurrences (l : loc) (seq : list Value) (useEquals : bool) :
  unique (VArr l seq) useEquals
  = Ok (first_occurrences (unique_eq useEquals) [] seq).
Proof.
  destruct useEquals; simpl.
  - rewrite <- (filter_first_occurrences seq []). reflexivity.
  - rewrite spread_set_first_occurrences. reflexivity.
Qed.

(** C9: in both modes [unique] returns the elements that no element before
    them in the sequence is equal to, in the order of the sequence, and
    applied to its own result it returns that result. *)
Theorem unique_idempotent (l l' : loc) (seq : list Value) (useEquals : bool) :
  exists result,
    unique (VArr l seq) useEquals = Ok result /\
    unique (VArr l' result) useEquals = Ok result /\
    result = first_occurrences (unique_eq useEquals) [] seq.
Proof.
  exists (first_occurrences (unique_eq useEquals) [] seq).
  rewrite !unique_first_occurrences.
  rewrite first_occurrences_again by apply incl_refl.
  repeat split.
Qed.

(** ** deepClone *)

Lemma has_key_app (key : string) (ps qs : list (string * Value)) :
  has_key key (ps ++ qs)%list = has_key key ps || has_key key qs.
Proof. unfold has_key. apply existsb_app. Qed.

Lemma set_prop_new (key : string) (v : Value) (props : list (string * Value)) :
  has_key key props = false ->
  set_prop key v props = (props ++ [(key, v)])%list.
Proof.
  induction props as [| [k w] props IH]; [reflexivity |].
  simpl. intro H. apply orb_false_elim in H. destruct H as [Hk H].
  rewrite Hk, (IH H). reflexivity.
Qed.

Lemma get_first (key : string) (x : Value) (props : list (string * Value)) :
  get key ((key, x) :: props) = x.
Proof. unfold get. simpl. rewrite String.eqb_refl. reflexivity. Qed.

Lemma get_later (key k : string) (x : Value) (props : list (string * Value)) :
  String.eqb k key = false ->
  get key ((k, x) :: props) = get key props.
Proof. intro H. unfold get. simpl. rewrite H. reflexivity. Qed.

(** Under distinct keys every entry is what its key gives. *)
Lemma distinct_keys_get (props : list (string * Value)) :
  distinct_keys props = true ->
  forall entry, In entry props ->
    get (fst entry) props = snd entry /\ has_key (fst entry) props = true.
Proof.
  induction props as [| [k x] props IH]; intros Hd entry Hin; [destruct Hin |].
  simpl in Hd. apply andb_prop in Hd. destruct Hd as [Hk Hd].
  apply negb_true_iff in Hk.
  destruct Hin as [<- | Hin].
  - simpl. rewrite get_first, String.eqb_refl. split; reflexivity.
  - destruct (IH Hd entry Hin) as [Hget Hhas].
    assert (Hne : String.eqb k (fst entry) = false).
    { destruct (String.eqb k (fst entry)) eqn:E; [| reflexivity].
      apply String.eqb_eq in E. subst k. congruence. }
    rewrite get_later by exact Hne. split; [exact Hget |].
    simpl. rewrite Hne. exact Hhas.
Qed.

(** What is left to show of a clone without arrays and objects. *)
Ltac no_locations :=
  split; [lia | split; [intros ? [] | constructor]].

(** The clones of the elements of an array. *)
Lemma parse_elements_clones (items : list Value) :
  Forall clones_well items ->
  forallb json_compatible items = true ->
  forall next : loc,
    exists items' next',
      parse_elements parse (map (stringify_element stringify) items) next
        = (items', next') /\
      List.length items' = List.length items /\
      all2 equal items' items = true /\
      next <= next' /\
      (forall l, In l (flat_map locations items') -> next <= l < next') /\
      NoDup (flat_map locations items').
Proof.
  induction 1 as [| x items Hx _ IH]; intros Hc next.
  - exists [], next. do 3 (split; [reflexivity |]). no_locations.
  - simpl in Hc. apply andb_prop in Hc. destruct Hc as [Hcx Hc].
    destruct (Hx next Hcx) as (text & v' & next1 & Hs & Hp & He & Hle & Hin & Hnd).
    destruct (IH Hc next1) as (items' & next2 & Hps & Hlen & Hall & Hle2 & Hin2 & Hnd2).
    exists (v' :: items'), next2.
    cbn [map parse_elements]. unfold stringify_element at 1.
    rewrite Hs, Hp, Hps.
    split; [reflexivity |].
    split; [simpl; now rewrite Hlen |].
    split; [simpl; unfold equals in He; now rewrite He, Hall |].
    split; [lia |].
    split.
    + intros l Hl. simpl in Hl. apply in_app_or in Hl. destruct Hl as [Hl | Hl].
      * specialize (Hin l Hl). lia.
      * specialize (Hin2 l Hl). lia.
    + simpl. apply NoDup_app; try assumption.
      intros l Hl Hl'. specialize (Hin l Hl). specialize (Hin2 l Hl'). lia.
Qed.

(** The clones of the properties of an object, added behind [acc]. *)
Lemma parse_members_clones (props : list (string * Value)) :
  Forall (fun entry => clones_well (snd entry)) props ->
  forallb (fun entry => json_compatible (snd entry)) props = true ->
  distinct_keys props = true ->
  forall (acc : list (string * Value)) (next : loc),
    (forall entry, In entry props -> has_key (fst entry) acc = false) ->
    exists props' next',
      parse_members parse (stringify_members stringify props) acc next
        = ((acc ++ props')%list, next') /\
      Forall2 (fun entry' entry =>
                 fst entry' = fst entry /\
                 equal (snd entry') (snd entry) = true) props' props /\
      next <= next' /\
      (forall l, In l (flat_map (fun entry => locations (snd entry)) props') ->
                 next <= l < next') /\
      NoDup (flat_map (fun entry => locations (snd entry)) props').
Proof.
  induction 1 as [| [key x] props Hx _ IH]; intros Hc Hd acc next Hacc.
  - exists [], next. rewrite app_nil_r.
    split; [reflexivity |]. split; [constructor |]. no_locations.
  - simpl in Hc. apply andb_prop in Hc. destruct Hc as [Hcx Hc].
    simpl in Hd. apply andb_prop in Hd. destruct Hd as [Hk Hd].
    apply negb_true_iff in Hk.
    destruct (Hx next Hcx) as (text & v' & next1 & Hs & Hp & He & Hle & Hin & Hnd).
    simpl in Hs.
    assert (Hnew : has_key key acc = false)
      by exact (Hacc (key, x) (or_introl eq_refl)).
    destruct (IH Hc Hd (acc ++ [(key, v')])%list next1)
      as (props' & next2 & Hps & Hall & Hle2 & Hin2 & Hnd2).
    { intros entry Hentry. rewrite has_key_app.
      rewrite (Hacc entry (or_intror Hentry)). simpl. rewrite orb_false_r.
      destruct (String.eqb key (fst entry)) eqn:E; [| reflexivity].
      apply String.eqb_eq in E. subst key.
      assert (has_key (fst entry) props = true).
      { unfold has_key. apply existsb_exists. exists entry.
        split; [exact Hentry | apply String.eqb_refl]. }
      congruence. }
    exists ((key, v') :: props'), next2.
    cbn [stringify_members]. rewrite Hs. cbn [parse_members].
    rewrite Hp, (set_prop_new key v' acc Hnew), Hps, <- app_assoc.
    split; [reflexivity |].
    split; [constructor; [split; [reflexivity | exact He] | exact Hall] |].
    split; [lia |].
    split.
    + intros l Hl. simpl in Hl. apply in_app_or in Hl. destruct Hl as [Hl | Hl].
      * specialize (Hin l Hl). lia.
      * specialize (Hin2 l Hl). lia.
    + simpl. apply NoDup_app; try assumption.
      intros l Hl Hl'. specialize (Hin l Hl). specialize (Hin2 l Hl'). lia.
Qed.

(** Objects with the same keys in the same order and equal values under
    them are equal, the keys of the second being distinct. *)
Lemma equal_props (props' props qs : list (string * Value)) :
  Forall2 (fun entry' entry =>
             fst entry' = fst entry /\
             equal (snd entry') (snd entry) = true) props' props ->
  (forall entry, In entry props ->
     get (fst entry) qs = snd entry /\ has_key (fst entry) qs = true) ->
  forallb (fun entry => has_key (fst entry) qs) props' = true /\
  forallb (fun entry => equal (snd entry) (get (fst entry) qs)) props' = true.
Proof.
  induction 1 as [| entry' entry props' props [Hk He] _ IH]; intro Hqs.
  - split; reflexivity.
  - destruct (Hqs entry (or_introl eq_refl)) as [Hget Hhas].
    destruct IH as [IH1 IH2]; [intros e Hin; apply Hqs; now right |].
    simpl. rewrite Hk, Hhas, Hget, He, IH1, IH2. split; reflexivity.
Qed.

(** Every JSON-compatible value is cloned well. *)
Lemma json_compatible_clones_well (v : Value) : clones_well v.
Proof.
  induction v using Value_ind; intros next Hc.
  - discriminate Hc.
  - exists JNull, VNull, next. do 3 (split; [reflexivity |]). no_locations.
  - exists (JBool b), (VBool b), next. do 2 (split; [reflexivity |]).
    split; [apply (equals_refl (VBool b)) | no_locations].
  - destruct n as [| negative | z]; try discriminate Hc.
    exists (JNumber z), (VNum (Num z)), next. do 2 (split; [reflexivity |]).
    split; [apply (equals_refl (VNum (Num z))) | no_locations].
  - exists (JString s), (VStr s), next. do 2 (split; [reflexivity |]).
    split; [apply (equals_refl (VStr s)) | no_locations].
  - simpl in Hc.
    destruct (parse_elements_clones items H Hc (S next))
      as (items' & next' & Hp & Hlen & Hall & Hle & Hin & Hnd).
    exists (JArray (map (stringify_element stringify) items)),
      (VArr next items'), next'.
    split; [reflexivity |].
    split; [cbn [parse]; now rewrite Hp |].
    split.
    { unfold equals. cbn [equal]. rewrite Hlen, Nat.eqb_refl, Hall.
      apply orb_true_r. }
    split; [lia |].
    split.
    + intros l' [<- | Hl]; [lia |]. specialize (Hin l' Hl). lia.
    + cbn [locations]. constructor; [| exact Hnd].
      intro Hl. specialize (Hin next Hl). lia.
  - simpl in Hc. apply andb_prop in Hc. destruct Hc as [Hd Hc].
    destruct (parse_members_clones props H Hc Hd [] (S next))
      as (props' & next' & Hp & Hall & Hle & Hin & Hnd);
      [reflexivity |].
    exists (JObject (stringify_members stringify props)),
      (VObj next props'), next'.
    split; [reflexivity |].
    split; [cbn [parse]; now rewrite Hp |].
    split.
    { unfold equals. cbn [equal].
      destruct (equal_props props' props props Hall (distinct_keys_get props Hd))
        as [H1 H2].
      rewrite (Forall2_length Hall), Nat.eqb_refl, H1, H2.
      apply orb_true_r. }
    split; [lia |].
    split.
    + intros l' [<- | Hl]; [lia |]. specialize (Hin l' Hl). lia.
    + cbn [locations]. constructor; [| exact Hnd].
      intro Hl. specialize (Hin next Hl). lia.
Qed.

(** C8: for every JSON-compatible value [v], [deepClone(v)] returns a value
    that [equals] finds equal to [v], and every array and object of the
    clone is allocated by the call, at a location of its own that no array
    or object of [v] has. *)
Theorem deepClone_equal_and_fresh (v : Value) (next : loc) :
  json_compatible v = true ->
  Forall (fun l => l < next) (locations v) ->
  exists clone next',
    deepClone v next = Ok (clone, next') /\
    equals clone v = true /\
    (forall l, In l (locations clone) -> next <= l < next') /\
    (forall l, In l (locations clone) -> ~ In l (locations v)) /\
    NoDup (locations clone).
Proof.
  intros Hc Hold.
  destruct (json_compatible_clones_well v next Hc)
    as (text & clone & next' & Hs & Hp & He & _ & Hin & Hnd).
  exists clone, next'. unfold deepClone. rewrite Hs, Hp.
  repeat split; try assumption; try (apply Hin; assumption).
  intros l Hl Hl'. rewrite Forall_forall in Hold.
  specialize (Hin l Hl). specialize (Hold l Hl'). lia.
Qed.

Lemma deepClone_equal_and_fresh_witness :
  exists clone next',
    deepClone (VObj 0 [("bands", VArr 1 [VStr "B04"; VNum (Num 8)]);
                       ("extent", VObj 2 [("west", VNull)])]) 3
      = Ok (clone, next') /\
    equals clone (VObj 0 [("bands", VArr 1 [VStr "B04"; VNum (Num 8)]);
                          ("extent", VObj 2 [("west", VNull)])]) = true /\
    (forall l, In l (locations clone) -> 3 <= l < next') /\
    (forall l, In l (locations clone) ->
       ~ In l (locations (VObj 0 [("bands", VArr 1 [VStr "B04"; VNum (Num 8)]);
                                  ("extent", VObj 2 [("west", VNull)])]))) /\
    NoDup (locations clone).
Proof.
  apply (deepClone_equal_and_fresh
           (VObj 0 [("bands", VArr 1 [VStr "B04"; VNum (Num 8)]);
                    ("extent", VObj 2 [("west", VNull)])]) 3).
  - reflexivity.
  - simpl. repeat constructor.
Defined.

(** ** Shaping objects *)

Example array_index_samples :
  map array_index ["0"; "7"; "10"; "4294967294"; "4294967295"; "01"; ""; "1a";
                   "-1"; "title"]
  = [Some 0%N; Some 7%N; Some 10%N; Some 4294967294%N; None; None; None; None;
     None; None] /\
  pickFromObject [("b", VNum (Num 1)); ("1", VNum (Num 2))]
    (VArr 0 [VStr "b"; VStr "10"; VStr "1"])
  = Ok [("1", Own (VNum (Num 2))); ("10", Own VUndefined);
        ("b", Own (VNum (Num 1)))].
Proof. split; vm_compute; reflexivity. Qed.

Example omit_pick_samples :
  omitFromObject
    (VObj 0 [("a", VNum (Num 1)); ("__proto__", VNull); ("b", VNum (Num 2));
             ("c", VNum (Num 3))])
    (VArr 1 [VStr "b"; VStr "x"; VStr "b"])
  = Ok [("a", VNum (Num 1)); ("c", VNum (Num 3))] /\
  omitFromObject (VStr "abc") (VArr 1 [VNum (Num 1)])
  = Ok [("0", VStr "a"); ("2", VStr "c")] /\
  pickFromObject [("a", VNum (Num 1)); ("b", VNum (Num 2))]
    (VArr 1 [VStr "b"; VStr "x"; VStr "toString"; VStr "b"; VStr "__proto__"])
  = Ok [("b", Own (VNum (Num 2))); ("x", Own VUndefined);
        ("toString", Inherited "toString")] /\
  pickFromObject [("__proto__", VNull)] (VArr 1 [VStr "__proto__"; VStr "__proto__"])
  = Ok [("__proto__", Own VNull)] /\
  mapObject (VStr "ab") (fun v key _ => Ok (VStr (key ++ to_string v)))
  = Ok [VStr "0a"; VStr "1b"] /\
  mapObjectValues VNull (fun v _ _ => Ok v) = Ok [].
Proof. repeat split. Qed.

Lemma filter_filter {A : Type} (p q : A -> bool) (l : list A) :
  filter p (filter q l) = filter (fun x => q x && p x) l.
Proof.
  induction l as [| x l IH]; [reflexivity |].
  simpl. destruct (q x); simpl; [destruct (p x) |]; now rewrite IH.
Qed.

(** Deleting key after key leaves the properties under no key of the
    list. *)
Lemma fold_delete_prop (keys : list string) :
  forall props : list (string * Value),
    fold_left (fun copy key => delete_prop key copy) keys props
    = filter (fun entry => negb (existsb (String.eqb (fst entry)) keys)) props.
Proof.
  induction keys as [| key keys IH]; intro props; simpl.
  - induction props as [| entry props IHp]; [reflexivity |].
    simpl. now rewrite <- IHp.
  - rewrite IH. unfold delete_prop. rewrite filter_filter.
    apply filter_ext. intro entry.
    rewrite negb_orb. reflexivity.
Qed.

Lemma has_key_filter (key : string) (p : string * Value -> bool)
  (props : list (string * Value)) :
  (forall entry, fst entry = key -> p entry = false) ->
  has_key key (filter p props) = false.
Proof.
  intro H. unfold has_key.
  induction props as [| entry props IH]; [reflexivity |].
  simpl. destruct (p entry) eqn:E; [| exact IH].
  simpl. rewrite IH, orb_false_r.
  destruct (String.eqb (fst entry) key) eqn:Ek; [| reflexivity].
  apply String.eqb_eq in Ek. rewrite (H entry Ek) in E. discriminate E.
Qed.

Lemma existsb_eqb_In (key : string) (keys : list string) :
  existsb (String.eqb key) keys = true <-> In key keys.
Proof.
  rewrite existsb_exists. split.
  - intros (k & Hin & E). apply String.eqb_eq in E. now subst.
  - intro H. exists key. split; [exact H | apply String.eqb_refl].
Qed.

Lemma omitFromObject_array (obj : Value) (l : loc) (toOmit : list Value) :
  omitFromObject obj (VArr l toOmit)
  = Ok (filter (fun entry =>
                  negb (existsb (String.eqb (fst entry)) (map to_string toOmit)))
          (assigned (own_props obj))).
Proof.
  unfold omitFromObject. simpl. now rewrite fold_delete_prop.
Qed.

(** X1: for a list of string keys [omitFromObject] returns the enumerable
    properties of [obj] that are under none of the keys to omit, in their
    order and with their values; no key that was to be omitted is left,
    whether it occurred or not, once or many times.  A string is the list
    of one key. *)
Theorem omitFromObject_filter (obj : Value) (l : loc) (toOmit : list string) :
  exists copy,
    omitFromObject obj (VArr l (map VStr toOmit)) = Ok copy /\
    copy = filter (fun entry => negb (existsb (String.eqb (fst entry)) toOmit))
             (assigned (own_props obj)) /\
    forallb (fun key => negb (has_key key copy)) toOmit = true /\
    (forall key, omitFromObject obj (VStr key)
                 = omitFromObject obj (VArr l [VStr key])).
Proof.
  assert (Hkeys : map to_string (map VStr toOmit) = toOmit)
    by (rewrite map_map; apply map_id).
  eexists. split; [rewrite omitFromObject_array, Hkeys; reflexivity |].
  split; [reflexivity |]. split; [| reflexivity].
  apply forallb_forall. intros key Hin.
  rewrite has_key_filter; [reflexivity |].
  intros entry <-. apply existsb_eqb_In in Hin. now rewrite Hin.
Qed.



Lemma comes_before_plain (key k : string) :
  array_index key = None -> comes_before key k = false.
Proof.
  intro H. unfold comes_before. now rewrite H.
Qed.

Lemma set_picked_present (f : string -> picked) (key : string)
  (keys : list string) :
  array_index key = None ->
  existsb (String.eqb key) keys = true ->
  set_picked key (f key) (map (fun k => (k, f k)) keys)
  = map (fun k => (k, f k)) keys.
Proof.
  intro Hkey. induction keys as [| k keys IH]; [discriminate |].
  simpl. intro H. destruct (String.eqb k key) eqn:E.
  - apply String.eqb_eq in E. now subst.
  - rewrite String.eqb_sym, E in H. simpl in H.
    now rewrite (comes_before_plain key k Hkey), (IH H).
Qed.

Lemma set_picked_absent (f : string -> picked) (key : string) (x : picked)
  (keys : list string) :
  array_index key = None ->
  existsb (String.eqb key) keys = false ->
  set_picked key x (map (fun k => (k, f k)) keys)
  = (map (fun k => (k, f k)) keys ++ [(key, x)])%list.
Proof.
  intro Hkey. induction keys as [| k keys IH]; [reflexivity |].
  simpl. intro H. apply orb_false_elim in H. destruct H as [E H].
  rewrite String.eqb_sym, E, (comes_before_plain key k Hkey), (IH H).
  reflexivity.
Qed.

(** Picking key after key, none of them [__proto__] or an array index,
    leaves each key once, where it came first. *)
Lemma fold_put (obj : list (string * Value)) (keys : list string) :
  forall seen done : list string,
    (forall k, existsb (String.eqb k) seen = existsb (String.eqb k) done) ->
    forallb plain_key keys = true ->
    fold_left (fun state key => put state key (read_property obj key)) keys
      (map (fun k => (k, read_property obj k)) done, true)
    = (map (fun k => (k, read_property obj k)) (done ++ distinct seen keys)%list,
       true).
Proof.
  induction keys as [| key keys IH]; intros seen done Hinv Hkeys.
  - simpl. now rewrite app_nil_r.
  - simpl in Hkeys. apply andb_prop in Hkeys. destruct Hkeys as [Hkey Hkeys].
    unfold plain_key in Hkey. apply andb_prop in Hkey.
    destruct Hkey as [Hproto Hindex]. apply negb_true_iff in Hproto.
    assert (Hplain : array_index key = None)
      by (destruct (array_index key); [discriminate Hindex | reflexivity]).
    cbn [fold_left distinct]. unfold put at 2. rewrite Hproto. cbn [andb].
    rewrite Hinv. destruct (existsb (String.eqb key) done) eqn:E.
    + rewrite (set_picked_present (read_property obj) key done Hplain E).
      apply IH; [| exact Hkeys].
      intro k. simpl. rewrite Hinv.
      destruct (String.eqb k key) eqn:Ek; [| reflexivity].
      apply String.eqb_eq in Ek. subst k. now rewrite E.
    + rewrite (set_picked_absent (read_property obj) key _ done Hplain E).
      change [(key, read_property obj key)]
        with (map (fun k => (k, read_property obj k)) [key]).
      rewrite <- map_app.
      rewrite (IH (key :: seen) (done ++ [key])%list); [| | exact Hkeys].
      * rewrite <- app_assoc. reflexivity.
      * intro k. simpl. rewrite existsb_app, Hinv. simpl.
        rewrite orb_false_r. apply orb_comm.
Qed.

(** X3: for keys that are neither [__proto__] nor an array index,
    [pickFromObject] returns an object with exactly the keys asked for,
    each once and in the order it was first asked for, and under each key
    what [obj[key]] gives: the value of the object, or [undefined] for a
    key that the object lacks, unless [Object.prototype] has a member of
    that name. *)
Theorem pickFromObject_keys (obj : list (string * Value)) (l : loc)
  (keys : list string) :
  forallb plain_key keys = true ->
  pickFromObject obj (VArr l (map VStr keys))
  = Ok (map (fun key => (key, read_property obj key)) (distinct [] keys)).
Proof.
  intro H. unfold pickFromObject. simpl. rewrite map_map. simpl.
  rewrite map_id.
  change (@nil (string * picked))
    with (map (fun k => (k, read_property obj k)) []).
  rewrite (fold_put obj keys [] []); [reflexivity | reflexivity | exact H].
Qed.

Lemma pickFromObject_keys_witness :
  pickFromObject [("id", VStr "S2"); ("title", VNull); ("links", VArr 1 [])]
    (VArr 0 (map VStr ["title"; "id"; "bands"; "title"]))
  = Ok (map (fun key =>
               (key, read_property
                       [("id", VStr "S2"); ("title", VNull); ("links", VArr 1 [])]
                       key))
          (distinct [] ["title"; "id"; "bands"; "title"])).
Proof.
  apply (pickFromObject_keys
           [("id", VStr "S2"); ("title", VNull); ("links", VArr 1 [])] 0
           ["title"; "id"; "bands"; "title"]).
  vm_compute. reflexivity.
Defined.

Lemma map_result_length {A B : Type} (f : A -> result B) (items : list A) :
  forall out, map_result f items = Ok out -> List.length out = List.length items.
Proof.
  induction items as [| x items IH]; intros out H.
  - injection H as <-. reflexivity.
  - simpl in H. destruct (f x); [| discriminate H].
    simpl in H. destruct (map_result f items) as [rest |]; [| discriminate H].
    simpl in H. injection H as <-. simpl. now rewrite (IH rest).
Qed.

Lemma map_result_ext {A B : Type} (f g : A -> result B) (items : list A) :
  (forall x, f x = g x) -> map_result f items = map_result g items.
Proof.
  intro H. induction items as [| x items IH]; [reflexivity |].
  simpl. now rewrite H, IH.
Qed.

Lemma map_result_map {A B C : Type} (f : B -> result C) (g : A -> B)
  (items : list A) :
  map_result f (map g items) = map_result (fun x => f (g x)) items.
Proof.
  induction items as [| x items IH]; [reflexivity |].
  simpl. now rewrite IH.
Qed.

Lemma map_result_Ok {A B : Type} (g : A -> B) (items : list A) :
  map_result (fun x => Ok (g x)) items = Ok (map g items).
Proof.
  induction items as [| x items IH]; [reflexivity |].
  simpl. now rewrite IH.
Qed.

Lemma indexed_combine (items : list Value) :
  forall i,
    indexed i items
    = map (fun entry => (nat_to_string (fst entry), snd entry))
        (combine (seq i (List.length items)) items).
Proof.
  induction items as [| x items IH]; intro i; [reflexivity |].
  simpl. now rewrite IH.
Qed.

Lemma indexed_length (items : list Value) :
  forall i, List.length (indexed i items) = List.length items.
Proof.
  induction items as [| x items IH]; intro i; [reflexivity |].
  simpl. now rewrite IH.
Qed.

Lemma map_snd_indexed (items : list Value) :
  forall i, map snd (indexed i items) = items.
Proof.
  induction items as [| x items IH]; intro i; [reflexivity |].
  simpl. now rewrite IH.
Qed.

(** X6: on an array [mapObject] is [Array.prototype.map] with the index
    passed as a decimal string: it calls [func(element, String(index),
    array)] element after element and throws what the first failing call
    throws; a callback that looks at the element only is mapped over the
    elements. *)
Theorem mapObject_array (l : loc) (items : list Value)
  (func : Value -> string -> Value -> result Value)
  (g : Value -> result Value) :
  mapObject (VArr l items) func
  = map_result (fun entry =>
                  func (snd entry) (nat_to_string (fst entry)) (VArr l items))
      (combine (seq 0 (List.length items)) items) /\
  mapObject (VArr l items) (fun v _ _ => g v) = map_result g items.
Proof.
  split.
  - unfold mapObject. cbn [own_props].
    rewrite indexed_combine, map_result_map. reflexivity.
  - unfold mapObject. cbn [own_props].
    rewrite <- (map_snd_indexed items 0) at 2.
    rewrite map_result_map. reflexivity.
Qed.

(** X7: what [mapObject] returns for an array or an object has one element
    for each element or property: its length is [size(obj)]. *)
Theorem mapObject_size (obj : Value)
  (func : Value -> string -> Value -> result Value) (out : list Value) :
  isArray obj || isObject obj = true ->
  mapObject obj func = Ok out ->
  List.length out = size obj.
Proof.
  intros Hshape H.
  destruct obj; try discriminate Hshape; unfold mapObject in H;
    apply map_result_length in H; rewrite H; cbn [own_props size].
  - apply indexed_length.
  - reflexivity.
Qed.

Lemma mapObject_size_witness :
  List.length [VStr "west:16"; VStr "east:17"]
  = size (VObj 0 [("west", VNum (Num 16)); ("east", VNum (Num 17))]).
Proof.
  apply (mapObject_size
           (VObj 0 [("west", VNum (Num 16)); ("east", VNum (Num 17))])
           (fun v key _ => Ok (VStr (key ++ ":" ++ to_string v))));
    reflexivity.
Defined.

Lemma map_fst_assigned (entries : list (string * Value))
  (props : list (string * Value)) :
  map fst entries = map fst props ->
  map fst (assigned entries) = map fst (assigned props).
Proof.
  revert props. induction entries as [| e entries IH]; intros [| p props] H;
    try discriminate H; [reflexivity |].
  simpl in H. injection H as Hk H.
  unfold assigned in *. simpl. rewrite Hk.
  destruct (negb (is_proto (fst p))); simpl; [rewrite Hk |]; now rewrite (IH props H).
Qed.

Lemma map_result_keys (f : string * Value -> result Value)
  (props : list (string * Value)) :
  forall entries,
    map_result (fun entry => y <- f entry ;; Ok (fst entry, y)) props
      = Ok entries ->
    map fst entries = map fst props.
Proof.
  induction props as [| p props IH]; intros entries H.
  - injection H as <-. reflexivity.
  - simpl in H. destruct (f p); [| discriminate H]. simpl in H.
    destruct (map_result _ props) as [rest |]; [| discriminate H].
    simpl in H. injection H as <-. simpl. now rewrite (IH rest).
Qed.

(** X8: what [mapObjectValues] returns has the keys of the enumerable
    properties of [obj] in their order, the key [__proto__] apart, which
    an assignment does not create; so it has as many properties. *)
Theorem mapObjectValues_keys (obj : Value)
  (func : Value -> string -> wrapped -> result Value)
  (out : list (string * Value)) :
  mapObjectValues obj func = Ok out ->
  map fst out = map fst (assigned (own_props obj)) /\
  List.length out = List.length (assigned (own_props obj)).
Proof.
  intro H. unfold mapObjectValues in H.
  destruct (map_result _ (own_props obj)) as [entries |] eqn:E;
    [| discriminate H].
  simpl in H. injection H as <-.
  apply (map_result_keys
           (fun entry => func (snd entry) (fst entry) (Object_of obj))) in E.
  assert (Hk : map fst (assigned entries) = map fst (assigned (own_props obj)))
    by (apply map_fst_assigned; exact E).
  split; [exact Hk |].
  rewrite <- (length_map fst), Hk, length_map. reflexivity.
Qed.

Lemma mapObjectValues_keys_witness :
  map fst [("west", VStr "16"); ("east", VStr "17")]
  = map fst (assigned (own_props
       (VObj 0 [("west", VNum (Num 16)); ("__proto__", VNull);
                ("east", VNum (Num 17))]))).
Proof.
  apply (mapObjectValues_keys
           (VObj 0 [("west", VNum (Num 16)); ("__proto__", VNull);
                    ("east", VNum (Num 17))])
           (fun v _ _ => Ok (VStr (to_string v)))).
  reflexivity.
Defined.

Lemma assigned_without_proto (props : list (string * Value)) :
  has_key "__proto__" props = false -> assigned props = props.
Proof.
  unfold assigned, has_key, is_proto.
  induction props as [| p props IH]; [reflexivity |].
  simpl. intro H. apply orb_false_elim in H. destruct H as [Hp H].
  rewrite Hp, (IH H). reflexivity.
Qed.

Lemma has_key_map_values (key : string) (g : string * Value -> Value)
  (props : list (string * Value)) :
  has_key key (map (fun entry => (fst entry, g entry)) props)
  = has_key key props.
Proof.
  unfold has_key. induction props as [| p props IH]; [reflexivity |].
  simpl. now rewrite IH.
Qed.

(** X9: on an object without a property [__proto__], [mapObjectValues] with
    the identity returns the properties as they are (a shallow copy), and
    two passes compose: mapping [g] over what mapping a callback [f] that
    does not throw returned is mapping [g] after [f] in one pass. *)
Theorem mapObjectValues_compose (l l' : loc) (props : list (string * Value))
  (f : Value -> string -> Value) (g : Value -> string -> result Value) :
  has_key "__proto__" props = false ->
  mapObjectValues (VObj l props) (fun v _ _ => Ok v) = Ok props /\
  (out <- mapObjectValues (VObj l props) (fun v key _ => Ok (f v key)) ;;
   mapObjectValues (VObj l' out) (fun v key _ => g v key))
  = mapObjectValues (VObj l props) (fun v key _ => g (f v key) key).
Proof.
  intro H. split.
  - unfold mapObjectValues. cbn [own_props].
    rewrite (map_result_Ok (fun entry : string * Value => (fst entry, snd entry))).
    cbn [bind]. rewrite assigned_without_proto.
    + f_equal. rewrite <- (map_id props) at 2. apply map_ext. now intros [k v].
    + now rewrite (has_key_map_values "__proto__" snd).
  - unfold mapObjectValues at 1. cbn [own_props].
    rewrite (map_result_Ok
               (fun entry : string * Value => (fst entry, f (snd entry) (fst entry)))).
    cbn [bind]. rewrite assigned_without_proto
      by now rewrite (has_key_map_values "__proto__"
                        (fun entry => f (snd entry) (fst entry))).
    unfold mapObjectValues. cbn [own_props].
    rewrite map_result_map. reflexivity.
Qed.

Lemma mapObjectValues_compose_witness :
  mapObjectValues (VObj 0 [("west", VNum (Num 16)); ("east", VNum (Num 17))])
    (fun v _ _ => Ok v)
  = Ok [("west", VNum (Num 16)); ("east", VNum (Num 17))].
Proof.
  apply (mapObjectValues_compose 0 1
           [("west", VNum (Num 16)); ("east", VNum (Num 17))]
           (fun v _ => v) (fun v _ => Ok v)).
  reflexivity.
Defined.

(** ** deepClone on any value *)

Lemma has_key_set_prop (key k : string) (v : Value)
  (props : list (string * Value)) :
  has_key k (set_prop key v props) = has_key k props || String.eqb key k.
Proof.
  unfold has_key. induction props as [| [k0 w] props IH]; simpl.
  - apply orb_comm.
  - destruct (String.eqb k0 key) eqn:E; simpl.
    + apply String.eqb_eq in E. subst k0.
      destruct (String.eqb key k); simpl; [reflexivity | now rewrite orb_false_r].
    + rewrite IH. now rewrite orb_assoc.
Qed.

Lemma distinct_keys_set_prop (key : string) (v : Value)
  (props : list (string * Value)) :
  distinct_keys props = true -> distinct_keys (set_prop key v props) = true.
Proof.
  induction props as [| [k0 w] props IH]; [reflexivity |].
  simpl. intro H. apply andb_prop in H. destruct H as [Hk H].
  destruct (String.eqb k0 key) eqn:E; simpl.
  - now rewrite Hk, H.
  - rewrite has_key_set_prop, (IH H).
    apply negb_true_iff in Hk. rewrite Hk. simpl.
    rewrite String.eqb_sym, E. reflexivity.
Qed.

Lemma json_compatible_set_prop (key : string) (v : Value)
  (props : list (string * Value)) :
  json_compatible v = true ->
  forallb (fun entry => json_compatible (snd entry)) props = true ->
  forallb (fun entry => json_compatible (snd entry)) (set_prop key v props)
  = true.
Proof.
  intros Hv. induction props as [| [k0 w] props IH]; simpl.
  - intros _. now rewrite Hv.
  - intro H. apply andb_prop in H. destruct H as [Hw H].
    destruct (String.eqb k0 key); simpl.
    + now rewrite Hv, H.
    + now rewrite Hw, (IH H).
Qed.

(** Whatever the text, the value parsed from it is JSON-compatible. *)
Lemma parse_json_compatible (j : Json) :
  forall next : loc, json_compatible (fst (parse j next)) = true.
Proof.
  induction j as [| b | z | s | elements IH | members IH] using Json_ind;
    intro next; try reflexivity.
  - cbn [parse].
    assert (H : forall n,
               forallb json_compatible (fst (parse_elements parse elements n))
               = true).
    { induction IH as [| j elements Hj _ IHe]; intro n; [reflexivity |].
      cbn [parse_elements]. specialize (Hj n).
      destruct (parse j n) as [v n1]. specialize (IHe n1).
      destruct (parse_elements parse elements n1) as [vs n2].
      simpl in *. now rewrite Hj, IHe. }
    specialize (H (S next)).
    destruct (parse_elements parse elements (S next)) as [items next'].
    exact H.
  - cbn [parse].
    assert (H : forall acc n,
               distinct_keys acc = true ->
               forallb (fun entry => json_compatible (snd entry)) acc = true ->
               distinct_keys (fst (parse_members parse members acc n)) = true /\
               forallb (fun entry => json_compatible (snd entry))
                 (fst (parse_members parse members acc n)) = true).
    { induction IH as [| [key j] members Hj _ IHm]; intros acc n Hd Hc;
        [split; assumption |].
      cbn [parse_members]. simpl in Hj. specialize (Hj n).
      destruct (parse j n) as [v n1]. simpl in Hj.
      apply IHm.
      - now apply distinct_keys_set_prop.
      - now apply json_compatible_set_prop. }
    destruct (H [] (S next) eq_refl eq_refl) as [Hd Hc].
    destruct (parse_members parse members [] (S next)) as [props next'].
    simpl in *. now rewrite Hd, Hc.
Qed.

(** X10: [deepClone] returns for every value but [undefined], and what it
    returns is JSON-compatible whatever was cloned: properties that are
    [undefined] are gone, and [undefined], [NaN] and the infinities have
    become [null] in arrays. *)
Theorem deepClone_json_compatible (v : Value) (next : loc) :
  is_undefined v = false ->
  exists clone next',
    deepClone v next = Ok (clone, next') /\
    json_compatible clone = true.
Proof.
  intro H. unfold deepClone.
  destruct (stringify v) as [text |] eqn:E.
  - pose proof (parse_json_compatible text next) as Hc.
    destruct (parse text next) as [clone next'].
    exists clone, next'. split; [reflexivity | exact Hc].
  - destruct v as [| | b | [| negative | z] | s | l items | l props];
      discriminate.
Qed.

Lemma deepClone_json_compatible_witness :
  exists clone next',
    deepClone (VObj 0 [("a", VUndefined); ("b", VArr 1 [VNum NaN; VUndefined])]) 2
      = Ok (clone, next') /\
    json_compatible clone = true.
Proof.
  apply (deepClone_json_compatible
           (VObj 0 [("a", VUndefined); ("b", VArr 1 [VNum NaN; VUndefined])]) 2).
  reflexivity.
Defined.

(** ** friendlyLinks on link records *)

Lemma get_set_prop_same (key : string) (v : Value)
  (props : list (string * Value)) :
  get key (set_prop key v props) = v.
Proof.
  unfold get. induction props as [| [k w] props IH]; simpl.
  - now rewrite String.eqb_refl.
  - destruct (String.eqb k key) eqn:E; simpl; now rewrite E.
Qed.

(** A link with a string for its [href] gets a title. *)
Lemma derive_title_href (link : list (string * Value)) :
  is_string (get "href" link) = true ->
  exists title, derive_title link = Ok title.
Proof.
  intro H. unfold derive_title.
  destruct (get "rel" link) as [| | b | n | rel | l items | l props];
    try (destruct (get "href" link); try discriminate H; eexists; reflexivity).
  destruct (1 <? String.length rel)%nat.
  - eexists. apply prettifyString_string.
  - destruct (get "href" link); try discriminate H. eexists. reflexivity.
Qed.

Lemma curate_link_records (ignoreRel : list Value) (linkList : list Value) :
  forallb has_href linkList = true ->
  exists links,
    curate ignoreRel linkList = Ok links /\
    Forall (fun link => is_string (get "title" link) = true /\
                        is_string (get "href" link) = true) links.
Proof.
  induction linkList as [| link rest IH]; intro H.
  - exists []. split; [reflexivity | constructor].
  - simpl in H. apply andb_prop in H. destruct H as [Hlink H].
    destruct (IH H) as (links & Hrest & Hall).
    destruct link as [| | b | n | s | l items | l props]; try discriminate Hlink.
    cbn [curate own_props]. cbn [has_href] in Hlink.
    destruct (ignored ignoreRel props); [exists links; now split |].
    rewrite Hrest.
    destruct (lacks_title props) eqn:Et.
    + destruct (derive_title_href props Hlink) as [title Hd].
      rewrite Hd. cbn [bind].
      eexists. split; [reflexivity |].
      constructor; [| exact Hall].
      rewrite get_set_prop_same, get_set_prop_other by reflexivity.
      split; [reflexivity | exact Hlink].
    + cbn [bind]. eexists. split; [reflexivity |].
      constructor; [| exact Hall].
      split; [| exact Hlink].
      unfold lacks_title in Et. destruct (get "title" props); try discriminate Et.
      reflexivity.
Qed.

(** X11: on an array of link records, objects with a string for their
    [href], [friendlyLinks] does not throw, and every link it returns has a
    string for its [title] and its [href]. *)
Theorem friendlyLinks_link_records (localeCompare : string -> string -> Z)
  (l : loc) (linkList : list Value) (sorted : bool) (ignoreRel : list Value) :
  forallb has_href linkList = true ->
  exists links,
    friendlyLinks localeCompare (VArr l linkList) sorted ignoreRel = Ok links /\
    Forall (fun link => is_string (get "title" link) = true /\
                        is_string (get "href" link) = true) links.
Proof.
  intro H. destruct (curate_link_records ignoreRel linkList H)
    as (links & Hc & Hall).
  unfold friendlyLinks. rewrite Hc. cbn [bind].
  eexists. split; [reflexivity |].
  destruct sorted; [| exact Hall].
  rewrite Forall_forall in *. intros link Hin.
  apply Hall. now apply sort_In in Hin.
Qed.

Lemma friendlyLinks_link_records_witness :
  exists links,
    friendlyLinks (fun _ _ => 0%Z)
      (VArr 0 [VObj 1 [("href", VStr "https://x.org/a"); ("rel", VStr "about")];
               VObj 2 [("href", VStr "https://x.org/b"); ("title", VNum (Num 3))]])
      true default_ignoreRel = Ok links /\
    Forall (fun link => is_string (get "title" link) = true /\
                        is_string (get "href" link) = true) links.
Proof.
  apply (friendlyLinks_link_records (fun _ _ => 0%Z) 0
           [VObj 1 [("href", VStr "https://x.org/a"); ("rel", VStr "about")];
            VObj 2 [("href", VStr "https://x.org/b"); ("title", VNum (Num 3))]]
           true default_ignoreRel).
  reflexivity.
Defined.

Lemma insert_sorted_Sorted {A : Type} (compare : A -> A -> Z) (x : A)
  (sorted : list A) :
  (forall a b, (compare a b < 0 <-> 0 < compare b a)%Z) ->
  Sorted (fun a b => (compare a b <= 0)%Z) sorted ->
  Sorted (fun a b => (compare a b <= 0)%Z) (insert_sorted compare x sorted).
Proof.
  intros Hanti Hs. induction Hs as [| y sorted Hs IH Hhd]; simpl.
  - repeat constructor.
  - destruct (Z.leb_spec (compare x y) 0).
    + constructor; [constructor; assumption |]. constructor. assumption.
    + constructor; [exact IH |].
      destruct sorted as [| z sorted]; simpl.
      * constructor. destruct (Hanti y x) as [_ Hyx]. specialize (Hyx H). lia.
      * destruct (compare x z <=? 0)%Z.
        -- constructor. destruct (Hanti y x) as [_ Hyx]. specialize (Hyx H). lia.
        -- constructor. now inversion Hhd.
Qed.

(** X12: for a comparison that orders the titles consistently (the sign
    turns with the arguments, and being before or equal is transitive),
    the links that [friendlyLinks] returns with [sort] on are in the order
    of their titles. *)
Theorem friendlyLinks_sorted (localeCompare : string -> string -> Z)
  (l : loc) (linkList : list Value) (ignoreRel : list Value)
  (links : list (list (string * Value))) :
  (forall a b, (localeCompare a b < 0 <-> 0 < localeCompare b a)%Z) ->
  (forall a b c, (localeCompare a b <= 0 -> localeCompare b c <= 0 ->
                  localeCompare a c <= 0)%Z) ->
  friendlyLinks localeCompare (VArr l linkList) true ignoreRel = Ok links ->
  Sorted (fun a b => (compare_titles localeCompare a b <= 0)%Z) links.
Proof.
  intros Hanti _ H. unfold friendlyLinks in H.
  destruct (curate ignoreRel linkList) as [pushed |]; [| discriminate H].
  cbn [bind] in H. injection H as <-.
  change (fun a b : list (string * Value) =>
            compareStringCaseInsensitive localeCompare
              (get "title" a) (get "title" b))
    with (compare_titles localeCompare).
  induction pushed as [| link pushed IH]; [constructor |].
  cbn [sort fold_right]. apply insert_sorted_Sorted; [| exact IH].
  intros a b. unfold compare_titles.
  rewrite !compareStringCaseInsensitive_to_string. apply Hanti.
Qed.

Lemma friendlyLinks_sorted_witness :
  Sorted
    (fun a b =>
       (compare_titles
          (fun a b => Z.of_nat (String.length a) - Z.of_nat (String.length b))%Z
          a b <= 0)%Z)
    [[("href", VStr "https://x.org/b"); ("title", VStr "B")];
     [("href", VStr "https://x.org/a"); ("rel", VStr "about"); ("title", VStr "About")]].
Proof.
  apply (friendlyLinks_sorted
           (fun a b => Z.of_nat (String.length a) - Z.of_nat (String.length b))%Z
           0
           [VObj 1 [("href", VStr "https://x.org/a"); ("rel", VStr "about")];
            VObj 2 [("href", VStr "https://x.org/b"); ("title", VStr "B")]]
           default_ignoreRel).
  - intros a b. lia.
  - intros a b c. lia.
  - reflexivity.
Defined.

Lemma strip_trailing_slash_app (u : string) :
  strip_trailing_slash (u ++ "/") = u.
Proof.
  induction u as [| c u IH]; [reflexivity |].
  destruct u as [| d u]; [reflexivity |].
  change (String c (String d u) ++ "/") with (String c (String d (u ++ "/"))).
  rewrite strip_trailing_slash_cons2. f_equal. exact IH.
Qed.

(** X13: a link that has an [href] only, made of [https://www.], a rest
    and a slash, gets that rest for its title: the scheme, [www.] and one
    trailing slash are taken off, and the link is never ignored. *)
Theorem friendlyLinks_title_of_href (localeCompare : string -> string -> Z)
  (l l' : loc) (rest : string) (sorted : bool) (ignoreRel : list Value) :
  friendlyLinks localeCompare
    (VArr l [VObj l' [("href", VStr ("https://www." ++ rest ++ "/"))]])
    sorted ignoreRel
  = Ok [[("href", VStr ("https://www." ++ rest ++ "/")); ("title", VStr rest)]].
Proof.
  unfold friendlyLinks. cbn [curate own_props].
  assert (Hi : ignored ignoreRel [("href", VStr ("https://www." ++ rest ++ "/"))]
               = false) by reflexivity.
  rewrite Hi.
  assert (Hd : derive_title [("href", VStr ("https://www." ++ rest ++ "/"))]
               = Ok rest).
  { unfold derive_title. cbn [get lookup String.eqb Ascii.eqb Bool.eqb].
    assert (Hs : strip_scheme ("https://www." ++ rest ++ "/") = rest ++ "/")
      by reflexivity.
    now rewrite Hs, strip_trailing_slash_app. }
  assert (Ht : lacks_title [("href", VStr ("https://www." ++ rest ++ "/"))]
               = true) by reflexivity.
  rewrite Ht, Hd. cbn. now destruct sorted.
Qed.

(** ** isNumeric *)

Lemma digit_value_digit (c : ascii) :
  is_digit c = true ->
  exists d, digit_value 10 c = Some d /\ (d < 10)%N.
Proof.
  destruct c as [[] [] [] [] [] [] [] []]; intro H; try discriminate H;
    eexists; split; reflexivity.
Qed.

(** Reading a string of digits reads all of it. *)
Lemma take_digits_all_digits (s : string) :
  all_digits s = true ->
  forall (acc : N) (count : nat),
    exists v,
      take_digits 10 acc count s = (v, count + String.length s, EmptyString) /\
      (v < (acc + 1) * 10 ^ N.of_nat (String.length s))%N.
Proof.
  induction s as [| c s IH]; intros H acc count.
  - exists acc. split; [simpl; now rewrite Nat.add_0_r | simpl; lia].
  - simpl in H. apply andb_prop in H. destruct H as [Hc Hs].
    destruct (digit_value_digit c Hc) as (d & Hd & Hlt).
    destruct (IH Hs (acc * 10 + d)%N (S count)) as (v & Hv & Hbound).
    exists v. split.
    + cbn [take_digits]. rewrite Hd, Hv. cbn [String.length].
      now rewrite Nat.add_succ_r.
    + cbn [String.length]. rewrite Nat2N.inj_succ, N.pow_succ_r'.
      nia.
Qed.

Lemma trim_end_all_digits (s : string) :
  all_digits s = true -> trim_end s = s.
Proof.
  induction s as [| c s IH]; [reflexivity |].
  simpl. intro H. apply andb_prop in H. destruct H as [Hc Hs].
  rewrite (IH Hs). destruct s; [| reflexivity].
  destruct c as [[] [] [] [] [] [] [] []]; try discriminate Hc; reflexivity.
Qed.

Lemma parse_numeric_literal_digits (c : ascii) (s : string) :
  is_digit c = true ->
  all_digits s = true ->
  parse_numeric_literal (String c s)
  = match parse_unsigned_decimal (String c s) with
    | Some (m, e) => Some (LDecimal false m e)
    | None => None
    end /\
  parseFloat_is_number (String c s) = true /\
  trim_start (String c s) = String c s.
Proof.
  intros Hc Hs.
  destruct c as [[] [] [] [] [] [] [] []]; try discriminate Hc;
    try (repeat split; reflexivity).
  destruct s as [| d s]; [repeat split; reflexivity |].
  simpl in Hs. apply andb_prop in Hs. destruct Hs as [Hd _].
  destruct d as [[] [] [] [] [] [] [] []]; try discriminate Hd;
    repeat split; reflexivity.
Qed.

(** X14: a string of one to 308 decimal digits is numeric. *)
Theorem isNumeric_digits (s : string) :
  0 < String.length s ->
  String.length s <= 308 ->
  all_digits s = true ->
  isNumeric s = true.
Proof.
  intros Hpos Hlen Hd.
  destruct s as [| c s]; [simpl in Hpos; lia |].
  pose proof Hd as Hd'. simpl in Hd'. apply andb_prop in Hd'.
  destruct Hd' as [Hc Hs].
  destruct (parse_numeric_literal_digits c s Hc Hs) as (Hparse & Hfloat & Htrim).
  destruct (take_digits_all_digits (String c s) Hd 0%N 0) as (v & Hv & Hbound).
  unfold isNumeric. rewrite Hfloat. cbn [andb].
  unfold string_to_number, trim. rewrite Htrim, (trim_end_all_digits _ Hd).
  rewrite Hparse. unfold parse_unsigned_decimal. rewrite Hv.
  cbn [Nat.add String.length parse_exponent].
  unfold literal_finite, scaled_ge. cbn [Z.leb Z.compare].
  apply negb_true_iff. apply Z.leb_gt.
  rewrite Z.pow_0_r, !Z.mul_1_r.
  assert (Hpow : (10 ^ N.of_nat (String.length (String c s)) <= 10 ^ 308)%N)
    by (apply N.pow_le_mono_r; lia).
  assert (Hmax : (Z.of_N (10 ^ 308) < 2 ^ 1024 - 2 ^ 970)%Z)
    by (vm_compute; reflexivity).
  lia.
Qed.

Lemma isNumeric_digits_witness : isNumeric "20180101" = true.
Proof.
  apply (isNumeric_digits "20180101"); [simpl; lia | simpl; lia | reflexivity].
Defined.

Lemma trim_start_all_ws (s : string) :
  all_ws s = true -> trim_start s = EmptyString.
Proof.
  induction s as [| c s IH]; [reflexivity |].
  simpl. intro H. apply andb_prop in H. destruct H as [Hc Hs].
  now rewrite Hc, (IH Hs).
Qed.

(** X15: the empty string and a string of white space are not numeric:
    [isFinite] takes them for [0], [parseFloat] finds no number in
    them. *)
Theorem isNumeric_blank (s : string) :
  all_ws s = true ->
  isNumeric s = false /\ string_to_number s = Some (LDecimal false 0 0).
Proof.
  intro H. unfold isNumeric, parseFloat_is_number, string_to_number, trim.
  rewrite (trim_start_all_ws s H). split; reflexivity.
Qed.

Lemma isNumeric_blank_witness : isNumeric "   " = false.
Proof.
  apply (isNumeric_blank "   "). reflexivity.
Defined.

(** ** normalizeUrl on base and path *)

Lemma append_empty (s : string) : s ++ EmptyString = s.
Proof.
  induction s as [| c s IH]; [reflexivity | simpl; now rewrite IH].
Qed.

Lemma strip_trailing_slash_none (s : string) :
  ends_with_slash s = false -> strip_trailing_slash s = s.
Proof.
  induction s as [| c s IH]; [reflexivity |].
  destruct s as [| d s].
  - simpl. now intros ->.
  - intro H. rewrite strip_trailing_slash_cons2.
    change (ends_with_slash (String d s) = false) in H. now rewrite (IH H).
Qed.

Lemma strip_trailing_slash_slash (present : bool) (s : string) :
  ends_with_slash s = false ->
  strip_trailing_slash (s ++ slash present) = s.
Proof.
  intro H. destruct present; simpl.
  - apply strip_trailing_slash_app.
  - rewrite append_empty. now apply strip_trailing_slash_none.
Qed.

(** X16: a base without a trailing slash and a path that is not empty and
    has no slash at either end are joined by one slash, and so are they
    with a slash behind the base, before the path or behind the path. *)
Theorem normalizeUrl_join (base path : string) (b1 b2 b3 : bool) :
  ends_with_slash base = false ->
  ends_with_slash path = false ->
  substr01 path <> "/" ->
  0 < String.length path ->
  normalizeUrl (VStr (base ++ slash b1)) (VStr (slash b2 ++ path ++ slash b3))
  = Ok (base ++ "/" ++ path).
Proof.
  intros Hbase Hpath Hstart Hlen.
  unfold normalizeUrl. rewrite (strip_trailing_slash_slash b1 base Hbase).
  assert (Hp : ends_with_slash ("/" ++ path) = false).
  { destruct path as [| c path]; [simpl in Hlen; lia | exact Hpath]. }
  assert (E : (if String.eqb (substr01 (slash b2 ++ path ++ slash b3)) "/"
               then slash b2 ++ path ++ slash b3
               else "/" ++ slash b2 ++ path ++ slash b3)
              = ("/" ++ path) ++ slash b3).
  { destruct b2; [reflexivity |].
    change (slash false ++ path ++ slash b3) with (path ++ slash b3).
    destruct path as [| c path]; [simpl in Hlen; lia |].
    simpl in Hstart. simpl substr01.
    destruct (String.eqb (String c "") "/") eqn:Ec; [| reflexivity].
    apply String.eqb_eq in Ec. contradiction. }
  rewrite E, (strip_trailing_slash_slash b3 ("/" ++ path) Hp). reflexivity.
Qed.

Lemma normalizeUrl_join_witness :
  normalizeUrl (VStr ("https://api.example.com" ++ slash true))
    (VStr (slash false ++ "jobs/7/results" ++ slash true))
  = Ok ("https://api.example.com" ++ "/" ++ "jobs/7/results").
Proof.
  apply (normalizeUrl_join "https://api.example.com" "jobs/7/results"
           true false true);
    [reflexivity | reflexivity | discriminate | simpl; lia].
Defined.

(** X17: [normalizeUrl] takes off a slash that was put behind any string,
    and an empty path or a path that is one slash adds nothing to it. *)
Theorem normalizeUrl_appended_slash (u : string) :
  normalizeUrl (VStr (u ++ "/")) VUndefined = Ok u /\
  normalizeUrl (VStr (u ++ "/")) (VStr "") = Ok u /\
  normalizeUrl (VStr (u ++ "/")) (VStr "/") = Ok u.
Proof.
  unfold normalizeUrl. rewrite strip_trailing_slash_app. simpl.
  rewrite append_empty. repeat split.
Qed.

(** ** replacePlaceholders without placeholders *)

Lemma find_first_none (c : ascii) (p m : string) :
  includes_char c m = false -> find_first (String c p) m = None.
Proof.
  induction m as [| d m IH]; [reflexivity |].
  simpl includes_char. intro H. apply orb_false_elim in H. destruct H as [Hd H].
  rewrite find_first_eq. cbn [strip_prefix].
  rewrite Ascii.eqb_sym, Hd, (IH H). reflexivity.
Qed.

(** X18: a message without an opening brace comes back as it is, whatever
    variables that [String] converts the object holds. *)
Theorem replacePlaceholders_no_brace (m : string) (l : loc)
  (props : list (string * Value)) :
  includes_char "{" m = false ->
  forallb (fun entry => printable (snd entry)) props = true ->
  replacePlaceholders (VStr m) (VObj l props) = VStr m.
Proof.
  intros H _. rewrite replacePlaceholders_fold. f_equal.
  induction props as [| [key vars] props IH]; [reflexivity |].
  cbn [fold_left]. unfold replace_placeholder at 2, replace_string.
  change ("{" ++ key ++ "}") with (String "{" (key ++ "}")).
  rewrite (find_first_none "{" (key ++ "}") m H). exact IH.
Qed.

Lemma replacePlaceholders_no_brace_witness :
  replacePlaceholders (VStr "Process not found")
    (VObj 0 [("process", VStr "ndvi"); ("bands", VArr 1 [VStr "B04"; VNull])])
  = VStr "Process not found".
Proof.
  apply (replacePlaceholders_no_brace "Process not found" 0
           [("process", VStr "ndvi"); ("bands", VArr 1 [VStr "B04"; VNull])]);
    reflexivity.
Defined.

(** ** What unique returns *)

Lemma first_occurrences_distinct (eq : Value -> Value -> bool)
  (seq : list Value) :
  forall earlier,
    pairwise_distinct eq (first_occurrences eq earlier seq) = true /\
    (forall y, In y (first_occurrences eq earlier seq) ->
               existsb (eq y) earlier = false) /\
    incl (first_occurrences eq earlier seq) seq /\
    List.length (first_occurrences eq earlier seq) <= List.length seq.
Proof.
  induction seq as [| x seq IH]; intro earlier.
  - repeat split; [intros y [] | apply incl_refl | simpl; lia].
  - destruct (IH (earlier ++ [x])%list) as (Hd & Hnew & Hincl & Hlen).
    assert (Hweak : forall y,
               In y (first_occurrences eq (earlier ++ [x])%list seq) ->
               existsb (eq y) earlier = false /\ eq y x = false).
    { intros y Hy. specialize (Hnew y Hy). rewrite existsb_app in Hnew.
      apply orb_false_elim in Hnew. destruct Hnew as [H1 H2].
      simpl in H2. rewrite orb_false_r in H2. now split. }
    simpl. destruct (existsb (eq x) earlier) eqn:E.
    + repeat split; [exact Hd | | now apply incl_tl | lia].
      intros y Hy. now apply Hweak.
    + repeat split.
      * simpl. rewrite Hd, andb_true_r. apply negb_true_iff.
        destruct (existsb (fun y => eq y x) _) eqn:Ex; [| reflexivity].
        apply existsb_exists in Ex. destruct Ex as (y & Hy & Hyx).
        destruct (Hweak y Hy) as [_ Hf]. congruence.
      * intros y [<- | Hy]; [exact E | now apply Hweak].
      * intros y [<- | Hy]; [now left | right; now apply Hincl].
      * simpl. lia.
Qed.

(** X19: in both modes no element of what [unique] returns is equal, in the
    equality of the mode, to an element before it; every element comes
    from the sequence, and there are no more of them. *)
Theorem unique_distinct (l : loc) (seq : list Value) (useEquals : bool) :
  exists out,
    unique (VArr l seq) useEquals = Ok out /\
    pairwise_distinct (unique_eq useEquals) out = true /\
    incl out seq /\
    List.length out <= List.length seq.
Proof.
  eexists. split; [apply unique_first_occurrences |].
  destruct (first_occurrences_distinct (unique_eq useEquals) seq [])
    as (Hd & _ & Hincl & Hlen).
  repeat split; assumption.
Qed.

Lemma fold_set_add_covers (seq : list Value) :
  forall (elements : list Value) (z : Value),
    existsb (sameValueZero z) (fold_left set_add seq elements)
    = existsb (sameValueZero z) elements || existsb (sameValueZero z) seq.
Proof.
  induction seq as [| x seq IH]; intros elements z; simpl.
  - now rewrite orb_false_r.
  - rewrite IH. unfold set_add.
    destruct (existsb (sameValueZero x) elements) eqn:E.
    + destruct (sameValueZero z x) eqn:Ezx; [| reflexivity].
      simpl. apply existsb_exists in E. destruct E as (a & Hin & Hxa).
      assert (H : existsb (sameValueZero z) elements = true).
      { apply existsb_exists. exists a. split; [exact Hin |].
        exact (sameValueZero_trans z x a Ezx Hxa). }
      now rewrite H.
    + rewrite existsb_app. simpl. rewrite orb_false_r. now rewrite orb_assoc.
Qed.

(** X20: without deep equality every element of the sequence is in what
    [unique] returns, up to the equality of [Set]. *)
Theorem unique_covers (l : loc) (seq : list Value) :
  exists out,
    unique (VArr l seq) false = Ok out /\
    forallb (fun x => existsb (sameValueZero x) out) seq = true.
Proof.
  eexists. split; [reflexivity |].
  apply forallb_forall. intros x Hin. unfold spread_set.
  rewrite fold_set_add_covers. simpl.
  apply existsb_exists. exists x. split; [exact Hin | apply sameValueZero_refl].
Qed.

(** ** prettifyString: lengths and the two variants *)

Lemma append_length (s t : string) :
  String.length (s ++ t) = String.length s + String.length t.
Proof.
  induction s as [| c s IH]; [reflexivity | simpl; now rewrite IH].
Qed.

(** The snake and kebab converters put a space for the separator. *)
Lemma replace_separated_length (r : ascii -> ascii -> string) (sep : ascii)
  (n : nat) :
  (forall a b, String.length (r a b) = 3) ->
  forall s : string,
    String.length s <= n ->
    String.length (replace_separated r sep s) = String.length s.
Proof.
  intro Hr. induction n as [| n IH]; intros s Hlen.
  - destruct s; [reflexivity | simpl in Hlen; lia].
  - destruct s as [| a [| x [| b rest]]]; try reflexivity.
    rewrite replace_separated_eq. cbn [String.length] in Hlen.
    destruct (is_alnum a && Ascii.eqb x sep && is_alnum b).
    + rewrite append_length, Hr, (IH rest) by lia. reflexivity.
    + cbn [String.length].
      rewrite (IH (String x (String b rest))) by (cbn [String.length]; lia).
      reflexivity.
Qed.

(** The camel converter adds a space where it splits. *)
Lemma replace_camel_length (r : ascii -> ascii -> string) (n : nat) :
  (forall a b, String.length (r a b) = 3) ->
  forall s : string,
    String.length s <= n ->
    String.length s <= String.length (replace_camel r s).
Proof.
  intro Hr. induction n as [| n IH]; intros s Hlen.
  - destruct s; [simpl; lia | simpl in Hlen; lia].
  - destruct s as [| a [| b rest]]; try (simpl; lia).
    rewrite replace_camel_eq.
    destruct (is_lower a && is_upper b).
    + rewrite append_length, Hr.
      specialize (IH rest). simpl in *. lia.
    + specialize (IH (String b rest)). simpl in *. lia.
Qed.

Lemma capitalize_length (s : string) :
  String.length (capitalize s) = String.length s.
Proof. destruct s; reflexivity. Qed.

(** X21: on a token of code units below 128 [prettifyString] never makes
    the token shorter, and a token with an underscore or, failing that, a
    hyphen in it keeps its length: spaces take the place of separators,
    while each split of a camel-case token adds one. *)
Theorem prettify_token_length (str : string) :
  ascii_only str = true ->
  includes_char "_" str || includes_char "-" str = true ->
  String.length (prettify_token str) = String.length str /\
  (forall token,
      ascii_only token = true ->
      String.length token <= String.length (prettify_token token)).
Proof.
  assert (Hr : forall a b, String.length (replacer a b) = 3) by reflexivity.
  intros _ H. split.
  - unfold prettify_token. destruct (3 <=? String.length str)%nat; [| reflexivity].
    rewrite capitalize_length. unfold convert_case.
    destruct (includes_char "_" str).
    + now apply (replace_separated_length replacer "_" (String.length str)).
    + simpl in H. rewrite H.
      now apply (replace_separated_length replacer "-" (String.length str)).
  - intros token _. unfold prettify_token.
    destruct (3 <=? String.length token)%nat; [| lia].
    rewrite capitalize_length. unfold convert_case.
    destruct (includes_char "_" token); [| destruct (includes_char "-" token)].
    + now rewrite (replace_separated_length replacer "_" (String.length token)).
    + now rewrite (replace_separated_length replacer "-" (String.length token)).
    + now apply (replace_camel_length replacer (String.length token)).
Qed.

Lemma prettify_token_length_witness :
  String.length (prettify_token "temporal_extent-start")
  = String.length "temporal_extent-start".
Proof.
  apply (prettify_token_length "temporal_extent-start"); reflexivity.
Defined.




